(** * django-swingtime: recurrence expansion and day queries

    A shallow embedding of [swingtime/base_models.py]: the models
    [EventTypeBase], [EventBase] and [OccurrenceBase], the manager
    [OccurrenceManager], the query helper [_daily_occurrences] and the
    factory [event_creation_factory].

    The database is an explicit state (three tables), Python exceptions are
    an error type, and the two libraries the module calls ([datetime] and
    [dateutil.rrule]) are modelled in the modules [Datetime] and [Rrule]. *)

From Stdlib Require Import ZArith List Bool String Lia Permutation Sorted.
Import ListNotations.
Open Scope Z_scope.

(* ------------------------------------------------------------------ *)
(** ** [datetime]: naive timestamps *)

(** A naive [datetime.datetime] is determined by its proleptic Gregorian
    ordinal ([toordinal()], day 1 is 0001-01-01) and its time of day.  It is
    represented by the number of microseconds since 0001-01-01T00:00:00, so
    that comparison of datetimes is comparison of integers and the difference
    of two datetimes is a [timedelta] in microseconds.  The fields are read
    back by the accessors below. *)
Module Datetime.

Definition datetime := Z.
Definition timedelta := Z.

Definition US_PER_SECOND : Z := 1000000.
Definition US_PER_MINUTE : Z := 60 * US_PER_SECOND.
Definition US_PER_HOUR : Z := 60 * US_PER_MINUTE.
Definition US_PER_DAY : Z := 24 * US_PER_HOUR.

(** [date.max.toordinal()], the ordinal of 9999-12-31. *)
Definition MAXORDINAL : Z := 3652059.

(** First microsecond count that is no datetime any more. *)
Definition DT_END : Z := MAXORDINAL * US_PER_DAY.

Definition valid (t : datetime) : bool := (0 <=? t) && (t <? DT_END).

Definition toordinal (t : datetime) : Z := t / US_PER_DAY + 1.
Definition hour (t : datetime) : Z := (t mod US_PER_DAY) / US_PER_HOUR.
Definition minute (t : datetime) : Z := (t mod US_PER_HOUR) / US_PER_MINUTE.
Definition second (t : datetime) : Z := (t mod US_PER_MINUTE) / US_PER_SECOND.
Definition microsecond (t : datetime) : Z := t mod US_PER_SECOND.

(** [dt.weekday()]: Monday is 0, Sunday is 6 (0001-01-01, of ordinal 1, is
    a Monday). *)
Definition weekday (t : datetime) : Z := (toordinal t + 6) mod 7.

(** The constructor, from an ordinal (standing for year, month and day) and
    the time fields. *)
Definition make (ord h m s us : Z) : datetime :=
  (ord - 1) * US_PER_DAY + h * US_PER_HOUR + m * US_PER_MINUTE
  + s * US_PER_SECOND + us.

(** [datetime(dt.year, dt.month, dt.day)]: midnight of the day of [dt]. *)
Definition midnight (dt : datetime) : datetime := make (toordinal dt) 0 0 0 0.

(** [dt.replace(hour=23, minute=59, second=59)]. *)
Definition replace_hms_235959 (dt : datetime) : datetime :=
  make (toordinal dt) 23 59 59 (microsecond dt).

(** [dt.replace(microsecond=0)]. *)
Definition replace_microsecond_0 (dt : datetime) : datetime :=
  make (toordinal dt) (hour dt) (minute dt) (second dt) 0.

(** [dt.replace(minute=0, second=0, microsecond=0)]. *)
Definition replace_minute_second_microsecond_0 (dt : datetime) : datetime :=
  make (toordinal dt) (hour dt) 0 0 0.

(** [a - b] on datetimes. *)
Definition sub (a b : datetime) : timedelta := a - b.

(** [dt + delta]: Python raises [OverflowError] when the sum leaves
    0001-01-01 .. 9999-12-31; [None] stands for that. *)
Definition add (dt : datetime) (delta : timedelta) : option datetime :=
  if valid (dt + delta) then Some (dt + delta) else None.

End Datetime.
Import Datetime.

(* ------------------------------------------------------------------ *)
(** ** The database and the exceptions *)

(** Rows of the three tables.  A foreign key holds the primary key of the
    row it refers to. *)
Record EventType := mkEventType {
  et_id : Z;
  abbr : string;     (* unique=True *)
  label : string
}.

Record Event := mkEvent {
  ev_id : Z;
  title : string;
  description : string;
  event_type : Z
}.

Record Occurrence := mkOccurrence {
  occ_id : Z;
  event : Z;
  start_time : datetime;
  end_time : datetime
}.

Record DB := mkDB {
  event_types : list EventType;
  events : list Event;
  occurrences : list Occurrence
}.

Definition empty_db : DB := mkDB [] [] [].

(** The exceptions that can leave the modelled code. *)
Inductive exn :=
| IntegrityError
| MultipleObjectsReturned
| OverflowError
| TypeError
| ValueError
| Unmodelled.   (* behaviour of a library outside what is modelled *)

(** Code that reads and writes the database and may raise: the tables are
    threaded through, and what was written before an exception stays
    written (no call below opens a transaction). *)
Definition M (A : Type) : Type := DB -> (exn + A) * DB.

Definition ret {A} (a : A) : M A := fun db => (inr a, db).
Definition raise {A} (e : exn) : M A := fun db => (inl e, db).
Definition bind {A B} (m : M A) (k : A -> M B) : M B :=
  fun db =>
    match m db with
    | (inl e, db') => (inl e, db')
    | (inr a, db') => k a db'
    end.
Definition lift {A} (r : exn + A) : M A := fun db => (r, db).

Declare Scope db_scope.
Delimit Scope db_scope with db.
Notation "x <- m ;; k" := (bind m (fun x => k))
  (at level 61, m at next level, right associativity) : db_scope.
Notation "m ;;; k" := (bind m (fun _ => k))
  (at level 61, right associativity) : db_scope.
Open Scope db_scope.

(** The primary key an insert gets: one more than the largest in the table. *)
Definition next_pk (ids : list Z) : Z := 1 + fold_right Z.max 0 ids.

(** An instance that is not saved yet: [model_cls(start_time=, end_time=,
    event=)]. *)
Record unsaved := mkUnsaved {
  u_event : Z;
  u_start_time : datetime;
  u_end_time : datetime
}.

Definition insert_occurrence (rows : list Occurrence) (u : unsaved)
  : list Occurrence :=
  rows ++ [mkOccurrence (next_pk (map occ_id rows))
             (u_event u) (u_start_time u) (u_end_time u)].

(** [self.occurrence_set.create(start_time=, end_time=)] of the event with
    primary key [self]. *)
Definition occurrence_set_create (self : Z) (st et : datetime) : M unit :=
  fun db =>
    (inr tt,
     mkDB (event_types db) (events db)
       (insert_occurrence (occurrences db) (mkUnsaved self st et))).

(** [self.occurrence_set.bulk_create(objs)]: the rows are inserted in the
    order of the list. *)
Definition occurrence_set_bulk_create (objs : list unsaved) : M unit :=
  fun db =>
    (inr tt,
     mkDB (event_types db) (events db)
       (fold_left insert_occurrence objs (occurrences db))).

(* ------------------------------------------------------------------ *)
(** ** Recurrence parameters *)

(** [rrule.YEARLY] .. [rrule.SECONDLY]. *)
Inductive Freq := YEARLY | MONTHLY | WEEKLY | DAILY | HOURLY | MINUTELY | SECONDLY.

(** The keyword arguments [**rrule_params].  [None] is a key that is absent
    (or, for [count] and [until], bound to Python's [None], which
    [dict.get] does not tell apart).  The secondary constraints of
    [dateutil] ([byweekday], [bymonth], ...) are carried as they come, each
    a keyword with its values. *)
Record rrule_params := mkRruleParams {
  freq : option Freq;
  interval : option Z;
  count : option Z;
  until : option datetime;
  by_rules : list (string * list Z)
}.

(** Parameters without secondary constraints. *)
Definition mkParams (f : option Freq) (i c : option Z) (u : option datetime)
  : rrule_params :=
  mkRruleParams f i c u [].

(** Python's truth value of [rrule_params.get('count')]: [None] and 0 are
    false. *)
Definition truthy_count (c : option Z) : bool :=
  match c with
  | None => false
  | Some n => negb (n =? 0)
  end.

(** Truth value of [rrule_params.get('until')]: a datetime is always true. *)
Definition truthy_until (u : option datetime) : bool :=
  match u with
  | None => false
  | Some _ => true
  end.

(** [rrule_params.setdefault('freq', rrule.DAILY)]. *)
Definition setdefault_freq (p : rrule_params) : rrule_params :=
  match freq p with
  | Some _ => p
  | None =>
      mkRruleParams (Some DAILY) (interval p) (count p) (until p) (by_rules p)
  end.

(* ------------------------------------------------------------------ *)
(** ** [EventBase.add_occurrences] *)

(** A generator consumed by a [for] loop: the datetimes it yields, in
    order, and the exception that ends it, if it does not end by returning.
    (An exception of the constructor is one raised before anything is
    yielded.) *)
Record generated := mkGenerated {
  yielded : list datetime;
  raised : option exn
}.

Section AddOccurrences.

(** [rrule.rrule(dtstart=, **params)] and the iteration over it. *)
Variable rrule_impl : datetime -> rrule_params -> generated.

(** The body of the [for ev in rrule.rrule(...)] loop, over the yielded
    datetimes: [ev + delta] may overflow, and does so before the generator
    is asked for the next datetime. *)
Fixpoint build_occurrences (self : Z) (delta : timedelta)
    (evs : list datetime) : exn + list unsaved :=
  match evs with
  | [] => inr []
  | ev :: rest =>
      match Datetime.add ev delta with
      | None => inl OverflowError
      | Some e =>
          match build_occurrences self delta rest with
          | inl x => inl x
          | inr occs => inr (mkUnsaved self ev e :: occs)
          end
      end
  end.

Definition add_occurrences (self : Z) (start_time end_time : datetime)
    (params : rrule_params) : M unit :=
  let count := count params in
  let until := until params in
  if negb (truthy_count count || truthy_until until) then
    occurrence_set_create self start_time end_time
  else
    let params := setdefault_freq params in
    let delta := Datetime.sub end_time start_time in
    let rule := rrule_impl start_time params in
    occs <- lift (build_occurrences self delta (yielded rule)) ;;
    match raised rule with
    | Some e => raise e
    | None => occurrence_set_bulk_create occs
    end.

End AddOccurrences.

(* ------------------------------------------------------------------ *)
(** ** The calendar of [datetime] *)

(** The helpers of Python's [datetime] module that turn a date into its
    ordinal and back; [dateutil.rrule] needs them for its monthly and yearly
    frequencies. *)
Module Calendar.

Definition MAXYEAR : Z := 9999.

Definition is_leap (year : Z) : bool :=
  (year mod 4 =? 0) && (negb (year mod 100 =? 0) || (year mod 400 =? 0)).

Definition days_before_year (year : Z) : Z :=
  let y := year - 1 in
  y * 365 + y / 4 - y / 100 + y / 400.

Definition DAYS_IN_MONTH (month : Z) : Z :=
  match month with
  | 1 => 31 | 2 => 28 | 3 => 31 | 4 => 30 | 5 => 31 | 6 => 30
  | 7 => 31 | 8 => 31 | 9 => 30 | 10 => 31 | 11 => 30 | 12 => 31
  | _ => 0
  end.

Definition DAYS_BEFORE_MONTH (month : Z) : Z :=
  match month with
  | 1 => 0 | 2 => 31 | 3 => 59 | 4 => 90 | 5 => 120 | 6 => 151
  | 7 => 181 | 8 => 212 | 9 => 243 | 10 => 273 | 11 => 304 | 12 => 334
  | _ => 0
  end.

Definition days_in_month (year month : Z) : Z :=
  if (month =? 2) && is_leap year then 29 else DAYS_IN_MONTH month.

Definition days_before_month (year month : Z) : Z :=
  DAYS_BEFORE_MONTH month + (if (2 <? month) && is_leap year then 1 else 0).

Definition ymd2ord (year month day : Z) : Z :=
  days_before_year year + days_before_month year month + day.

Definition DI400Y : Z := 146097.
Definition DI100Y : Z := 36524.
Definition DI4Y : Z := 1461.

Definition ord2ymd (n : Z) : Z * Z * Z :=
  let n := n - 1 in
  let n400 := n / DI400Y in
  let n := n mod DI400Y in
  let year := n400 * 400 + 1 in
  let n100 := n / DI100Y in
  let n := n mod DI100Y in
  let n4 := n / DI4Y in
  let n := n mod DI4Y in
  let n1 := n / 365 in
  let n := n mod 365 in
  let year := year + n100 * 100 + n4 * 4 + n1 in
  if (n1 =? 4) || (n100 =? 4) then (year - 1, 12, 31)
  else
    let leapyear := (n1 =? 3) && (negb (n4 =? 24) || (n100 =? 3)) in
    let month := Z.shiftr (n + 50) 5 in
    let preceding :=
      DAYS_BEFORE_MONTH month + (if (2 <? month) && leapyear then 1 else 0) in
    if n <? preceding then
      let month := month - 1 in
      let preceding :=
        preceding - (DAYS_IN_MONTH month
                     + (if (month =? 2) && leapyear then 1 else 0)) in
      (year, month, n - preceding + 1)
    else (year, month, n - preceding + 1).

(** [datetime(year, month, day, ...)] with the time of day of [tod]. *)
Definition at_time_of (year month day : Z) (tod : datetime) : datetime :=
  (ymd2ord year month day - 1) * US_PER_DAY + tod mod US_PER_DAY.

End Calendar.
Import Calendar.

(* ------------------------------------------------------------------ *)
(** ** [dateutil.rrule]: the rule without secondary constraints *)

(** [rrule.rrule(freq, dtstart=, interval=1, count=None, until=None)] for a
    rule that carries no [by...] argument, consumed to its end.  The rule
    starts from [dtstart.replace(microsecond=0)], visits one period after the
    other and, in each, the datetime that has the time of day of [dtstart]
    and, for the monthly and yearly frequencies, its day of the month (and
    month); a period without such a day is passed over.  A candidate after
    [until] ends the iteration, a candidate from [dtstart] on is yielded
    while [count] lasts, and the iteration ends with the year 9999. *)
Module Rrule.
Import Calendar.

(** Where the iteration stands: a timestamp for the frequencies of fixed
    length, the index of a month ([12 * year + month - 1]) for [MONTHLY]
    and a year for [YEARLY]. *)
Definition position := Z.

(** Length of the period of a frequency of fixed length. *)
Definition period (f : Freq) : option Z :=
  match f with
  | YEARLY | MONTHLY => None
  | WEEKLY => Some (7 * US_PER_DAY)
  | DAILY => Some US_PER_DAY
  | HOURLY => Some US_PER_HOUR
  | MINUTELY => Some US_PER_MINUTE
  | SECONDLY => Some US_PER_SECOND
  end.

(** How far one iteration advances the position. *)
Definition stride (f : Freq) (interval : Z) : Z :=
  match period f with
  | Some p => interval * p
  | None => interval
  end.

Definition origin (f : Freq) (dtstart : datetime) : position :=
  match f with
  | YEARLY => let '(y, _, _) := ord2ymd (toordinal dtstart) in y
  | MONTHLY => let '(y, m, _) := ord2ymd (toordinal dtstart) in 12 * y + (m - 1)
  | _ => dtstart
  end.

(** [calendar.firstweekday()], which [rrule] takes for [wkst] when the
    keyword is not given: Monday, Python's default (these sources do not
    call [calendar.setfirstweekday]). *)
Definition wkst : Z := 0.

(** Ordinal of the day the week of [pos] begins with. *)
Definition week_start (pos : position) : Z :=
  toordinal pos - (weekday pos - wkst) mod 7.

Inductive candidate :=
| Stop                      (* the year is past MAXYEAR: the loop returns *)
| Fail                      (* [date.fromordinal] raises [ValueError] *)
| Skip                      (* the period has no matching day *)
| Emit (res : datetime).

Definition candidate_at (f : Freq) (dtstart : datetime) (pos : position)
  : candidate :=
  match f with
  | YEARLY =>
      let '(_, m, d) := ord2ymd (toordinal dtstart) in
      if MAXYEAR <? pos then Stop
      else if d <=? days_in_month pos m then Emit (at_time_of pos m d dtstart)
      else Skip
  | MONTHLY =>
      let '(_, _, d) := ord2ymd (toordinal dtstart) in
      let y := pos / 12 in
      let m := pos mod 12 + 1 in
      if MAXYEAR <? y then Stop
      else if d <=? days_in_month y m then Emit (at_time_of y m d dtstart)
      else Skip
  | WEEKLY =>
      (* the first week is taken from the day of the start on; then the
         loop goes from week to week and returns when the first day of a
         week is past 9999-12-31; within a week it builds the date of the
         weekday of the start, which may be past 9999-12-31 when the first
         day of the week is not *)
      if pos =? dtstart then Emit pos
      else if MAXORDINAL <? week_start pos then Stop
      else if DT_END <=? pos then Fail
      else Emit pos
  | _ => if DT_END <=? pos then Stop else Emit pos
  end.

(** [count is not None], then [count -= 1] and the test [count < 0]. *)
Definition take_one (count : option Z) : option (option Z) :=
  match count with
  | None => Some None
  | Some c => if c - 1 <? 0 then None else Some (Some (c - 1))
  end.

Definition after_until (until : option datetime) (res : datetime) : bool :=
  match until with
  | None => false
  | Some u => u <? res
  end.

(** The generator's loop, at most [fuel] periods.  The candidate of a
    period is built before [until] and [count] are tested. *)
Fixpoint iter (fuel : nat) (f : Freq) (dtstart : datetime) (step : Z)
    (until : option datetime) (count : option Z) (pos : position)
  : generated :=
  match fuel with
  | O => mkGenerated [] None
  | S fuel' =>
      match candidate_at f dtstart pos with
      | Stop => mkGenerated [] None
      | Fail => mkGenerated [] (Some ValueError)
      | Skip => iter fuel' f dtstart step until count (pos + step)
      | Emit res =>
          if after_until until res then mkGenerated [] None
          else if dtstart <=? res then
            match take_one count with
            | None => mkGenerated [] None
            | Some count' =>
                let rest :=
                  iter fuel' f dtstart step until count' (pos + step) in
                mkGenerated (res :: yielded rest) (raised rest)
            end
          else iter fuel' f dtstart step until count (pos + step)
      end
  end.

(** First position the iteration cannot yield from any more. *)
Definition pos_end (f : Freq) (until : option datetime) : position :=
  match f with
  | YEARLY => MAXYEAR + 1
  | MONTHLY => 12 * (MAXYEAR + 1)
  | _ => match until with
         | Some u => Z.min DT_END (u + 1)
         | None => DT_END
         end
  end.

(** Number of periods between a position and [pos_end]. *)
Definition periods_left (f : Freq) (step : Z) (until : option datetime)
    (pos : position) : Z :=
  Z.max 0 ((pos_end f until - pos + step - 1) / step).

(** Periods the loop yields from, at most: those left, and for a frequency
    of fixed length (every period yields) no more than [count].  One more
    period ends the loop. *)
Definition fuel_for (f : Freq) (step : Z) (until : option datetime)
    (count : option Z) (pos : position) : nat :=
  let n := periods_left f step until pos in
  Z.to_nat
    match period f, count with
    | Some _, Some c => Z.min c n
    | _, _ => n
    end.

(** The rule and its iteration to the end.  The model covers the rules
    without secondary constraints and with [interval >= 1].  [Unmodelled]
    marks the others and is no exception of the code: [dateutil] expands
    the secondary constraints and does not check the interval (with an
    interval of 0 it yields the start again and again).  Every statement
    below about this rule is made for the rules the model covers. *)
Definition rrule (dtstart : datetime) (params : rrule_params)
  : generated :=
  match freq params with
  | None => mkGenerated [] (Some TypeError)  (* freq is a required argument *)
  | Some f =>
      let interval := match interval params with Some i => i | None => 1 end in
      if negb (match by_rules params with [] => true | _ => false end)
         || (interval <? 1)
      then mkGenerated [] (Some Unmodelled)
      else
        let dtstart := replace_microsecond_0 dtstart in
        let step := stride f interval in
        let pos := origin f dtstart in
        iter (S (fuel_for f step (until params) (count params) pos))
          f dtstart step (until params) (count params) pos
  end.

End Rrule.

(* ------------------------------------------------------------------ *)
(** ** Querysets *)

(** A queryset over the occurrences is the list of the rows it selects, in
    the order of the table; [fetch] evaluates it under the [ordering] of the
    [Meta] of the occurrence model. *)
Definition queryset := list Occurrence.

(** The [ordering] option of the [Meta] of an occurrence model. *)
Inductive ordering :=
| no_ordering                   (* a Meta that sets no ordering *)
| start_time_end_time.          (* ordering = ('start_time', 'end_time') *)

(** [OccurrenceBase.Meta]: what a model gets that declares no [Meta] of its
    own, or one that extends [OccurrenceBase.Meta]. *)
Definition OccurrenceBase_Meta_ordering : ordering := start_time_end_time.

(** [models.Occurrence] declares [class Meta: app_label = 'swingtime'],
    which does not extend [OccurrenceBase.Meta]; Django then takes no option
    from the Meta of the abstract base class, and the model has no default
    ordering. *)
Definition Occurrence_Meta_ordering : ordering := no_ordering.

Definition occ_leb (a b : Occurrence) : bool :=
  (start_time a <? start_time b)
  || ((start_time a =? start_time b) && (end_time a <=? end_time b)).

Fixpoint insert_ordered (o : Occurrence) (l : list Occurrence)
  : list Occurrence :=
  match l with
  | [] => [o]
  | x :: rest => if occ_leb o x then o :: l else x :: insert_ordered o rest
  end.

Definition order_by_start_time_end_time (qs : queryset) : list Occurrence :=
  fold_right insert_ordered [] qs.

(** The rows of a queryset as the database returns them.  Without an
    [ORDER BY] the order is the database's; the model takes the order of the
    table (the order of insertion, which is what SQLite, the engine of the
    demo settings, returns for these queries). *)
Definition fetch (ord : ordering) (qs : queryset) : list Occurrence :=
  match ord with
  | no_ordering => qs
  | start_time_end_time => order_by_start_time_end_time qs
  end.

(** [self.occurrence_set] of the event with primary key [self]. *)
Definition occurrence_set (db : DB) (self : Z) : queryset :=
  filter (fun o => event o =? self) (occurrences db).

(** [Occurrence.objects]. *)
Definition objects (db : DB) : queryset := occurrences db.

(* ------------------------------------------------------------------ *)
(** ** [EventBase.upcoming_occurrences] and [EventBase.next_occurrence] *)

(** [now] is the value of [datetime.now()] during the call. *)
Definition upcoming_occurrences (db : DB) (now : datetime) (self : Z)
  : queryset :=
  filter (fun o => now <=? start_time o) (occurrence_set db self).

Definition next_occurrence (ord : ordering) (db : DB) (now : datetime)
    (self : Z) : option Occurrence :=
  let upcoming := upcoming_occurrences db now self in
  match fetch ord upcoming with
  | [] => None
  | first :: _ => Some first
  end.

(* ------------------------------------------------------------------ *)
(** ** [_daily_occurrences] and [OccurrenceManager.daily_occurrences] *)

(** The three [Q] objects joined by [|]. *)
Definition day_filter (start end_ : datetime) (o : Occurrence) : bool :=
  ((start <=? start_time o) && (start_time o <=? end_))
  || ((start <=? end_time o) && (end_time o <=? end_))
  || ((start_time o <? start) && (end_ <? end_time o)).

Definition _daily_occurrences (obj : queryset) (now : datetime)
    (dt : option datetime) : queryset :=
  let dt := match dt with Some d => d | None => now end in
  let start := midnight dt in
  let end_ := replace_hms_235959 start in
  filter (day_filter start end_) obj.

Definition daily_occurrences (db : DB) (now : datetime)
    (dt : option datetime) (event_ : option Z) : queryset :=
  let qs := _daily_occurrences (objects db) now dt in
  match event_ with
  | Some e => filter (fun o => event o =? e) qs
  | None => qs
  end.

(** [EventBase.daily_occurrences]. *)
Definition event_daily_occurrences (db : DB) (now : datetime) (self : Z)
    (dt : option datetime) : queryset :=
  _daily_occurrences (occurrence_set db self) now dt.

(* ------------------------------------------------------------------ *)
(** ** [OccurrenceBase]: [__lt__], [title] and [event_type] *)

(** [OccurrenceBase.__lt__]: by the start alone. *)
Definition occurrence_lt (self other : Occurrence) : bool :=
  start_time self <? start_time other.

(** [self.event]: the row of the events the foreign key refers to, if the
    table holds it. *)
Definition occurrence_event (db : DB) (o : Occurrence) : option Event :=
  find (fun e => ev_id e =? event o) (events db).

(** The property [OccurrenceBase.title]: [self.event.title]. *)
Definition occurrence_title (db : DB) (o : Occurrence) : option string :=
  option_map title (occurrence_event db o).

(** The property [OccurrenceBase.event_type]: [self.event.event_type], the
    primary key of the event type. *)
Definition occurrence_event_type (db : DB) (o : Occurrence) : option Z :=
  option_map event_type (occurrence_event db o).

(* ------------------------------------------------------------------ *)
(** ** [event_creation_factory] *)

(** What [swingtime_settings] (module [conf], not part of these sources)
    provides to the factory. *)
Record swingtime_settings := mkSettings {
  DEFAULT_OCCURRENCE_DURATION : timedelta
}.

(** The [event_type] argument: an [EventType] instance (its primary key) or
    a 2-tuple [(abbreviation, label)]. *)
Inductive event_type_arg :=
| Instance (pk : Z)
| Tuple (abbreviation label_ : string).

(** [event_type_cls.objects.get_or_create(abbr=, label=)]: Django looks the
    row up by ALL the keyword arguments; when none matches it inserts one,
    and the insert violates [unique=True] when the abbreviation is taken
    (the second lookup Django then makes fails like the first, and the
    [IntegrityError] is raised again). *)
Definition get_or_create (abbr_ label_ : string) : M (EventType * bool) :=
  fun db =>
    match filter (fun et => String.eqb (abbr et) abbr_
                            && String.eqb (label et) label_)
                 (event_types db) with
    | [et] => (inr (et, false), db)
    | _ :: _ :: _ => (inl MultipleObjectsReturned, db)
    | [] =>
        if existsb (fun et => String.eqb (abbr et) abbr_) (event_types db)
        then (inl IntegrityError, db)
        else
          let et := mkEventType (next_pk (map et_id (event_types db)))
                      abbr_ label_ in
          (inr (et, true),
           mkDB (event_types db ++ [et]) (events db) (occurrences db))
    end.

(** [event_cls.objects.create(title=, description=, event_type=)]. *)
Definition event_create (title_ description_ : string) (event_type_ : Z)
  : M Event :=
  fun db =>
    let ev := mkEvent (next_pk (map ev_id (events db)))
                title_ description_ event_type_ in
    (inr ev, mkDB (event_types db) (events db ++ [ev]) (occurrences db)).

Section Factory.

Variable rrule_impl : datetime -> rrule_params -> generated.
Variable settings : swingtime_settings.

Definition inner_create_event (now : datetime) (title_ : string)
    (event_type_ : event_type_arg) (description_ : string)
    (start_time_ end_time_ : option datetime) (params : rrule_params)
  : M Event :=
  event_type_ <-
    match event_type_ with
    | Tuple a l => r <- get_or_create a l ;; ret (et_id (fst r))
    | Instance pk => ret pk
    end ;;
  event_ <- event_create title_ description_ event_type_ ;;
  let start_time_ :=
    match start_time_ with
    | Some s => s
    | None => replace_minute_second_microsecond_0 now
    end in
  end_time_ <-
    match end_time_ with
    | Some e => ret e
    | None =>
        lift match Datetime.add start_time_
                     (DEFAULT_OCCURRENCE_DURATION settings) with
             | Some e => inr e
             | None => inl OverflowError
             end
    end ;;
  add_occurrences rrule_impl (ev_id event_) start_time_ end_time_ params ;;;
  ret event_.

End Factory.

(** [models.create_event], with [dateutil]'s rule. *)
Definition create_event := inner_create_event Rrule.rrule.

(* ------------------------------------------------------------------ *)
(** ** Vocabulary of the statements *)

(** What a row holds besides its primary key. *)
Definition occ_data (o : Occurrence) : unsaved :=
  mkUnsaved (event o) (start_time o) (end_time o).

(** The tables after some rows were appended to the occurrences. *)
Definition with_new_occurrences (db : DB) (news : list Occurrence) : DB :=
  mkDB (event_types db) (events db) (occurrences db ++ news).

(** The single insert of the unbounded case. *)
Definition single_occurrence (db : DB) (self : Z) (st et : datetime)
  : Occurrence :=
  mkOccurrence (next_pk (map occ_id (occurrences db))) self st et.

(** The first [n] datetimes of the arithmetic progression from [pos] with
    difference [step]: the anchors of a rule of fixed period. *)
Definition anchors_from (pos step : Z) (n : nat) : list datetime :=
  map (fun k => pos + Z.of_nat k * step) (seq 0 n).

(** Days before the month at a month index ([12 * year + month - 1]). *)
Definition days_before_index (idx : Z) : Z :=
  days_before_year (idx / 12) + days_before_month (idx / 12) (idx mod 12 + 1).

(** The datetime a rule has in its k-th period, the period of the start
    being period 0, if it has one there. *)
Definition period_anchor (f : Freq) (first : datetime) (interval k : Z)
  : option datetime :=
  match Rrule.candidate_at f first
          (Rrule.origin f first + k * Rrule.stride f interval) with
  | Rrule.Emit a => Some a
  | _ => None
  end.

(** The anchors of [n] periods in a row, from period [k0] on. *)
Fixpoint anchors_of_periods (f : Freq) (first : datetime) (interval k0 : Z)
    (n : nat) : list datetime :=
  match n with
  | O => []
  | S n' =>
      match period_anchor f first interval k0 with
      | Some a => a :: anchors_of_periods f first interval (k0 + 1) n'
      | None => anchors_of_periods f first interval (k0 + 1) n'
      end
  end.

(** The k-th period of a rule is one in which the iteration raises
    [ValueError]: a week that begins in the year 9999 while the weekday of
    the start falls, in that week, in the year 10000. *)
Definition period_raises (f : Freq) (first : datetime) (interval k : Z)
  : bool :=
  match Rrule.candidate_at f first
          (Rrule.origin f first + k * Rrule.stride f interval) with
  | Rrule.Fail => true
  | _ => false
  end.

(** The frequency and the interval a rule runs with. *)
Definition freq_or_daily (f : option Freq) : Freq :=
  match f with Some x => x | None => DAILY end.

Definition interval_or_1 (i : option Z) : Z :=
  match i with Some v => v | None => 1 end.

(** The order of [Meta.ordering]: by start, then by end. *)
Definition occ_le (a b : Occurrence) : Prop :=
  start_time a < start_time b
  \/ (start_time a = start_time b /\ end_time a <= end_time b).

(** An occurrence against a window: it starts in the window, or it ends in
    the window, or it starts before and ends after the window. *)
Definition overlaps (o : Occurrence) (window_start window_end : datetime)
  : Prop :=
  (window_start <= start_time o /\ start_time o <= window_end)
  \/ (window_start <= end_time o /\ end_time o <= window_end)
  \/ (start_time o < window_start /\ window_end < end_time o).

(** The textbook test of the specification,
    [start <= window_end AND end >= window_start]; no code of the
    repository computes it. *)
Definition simple_overlap (window_start window_end : datetime)
    (o : Occurrence) : bool :=
  (start_time o <=? window_end) && (window_start <=? end_time o).

(** [datetime(year, month, day, hour, minute, second, microsecond)]. *)
Definition datetime_of (y m d h mi s us : Z) : datetime :=
  make (Calendar.ymd2ord y m d) h mi s us.

(** A time of a day of January 2024, to the minute. *)
Definition jan_2024 (d h mi : Z) : datetime := datetime_of 2024 1 d h mi 0 0.

(** Settings with a duration of one hour. *)
Definition settings_one_hour : swingtime_settings := mkSettings US_PER_HOUR.

(** Tables that hold the event type PRAC under the label "Practice". *)
Definition prac_db : DB :=
  mkDB [mkEventType 1 "PRAC" "Practice"] [] [].

(** An unbounded rule: no frequency, no interval, no count, no until. *)
Definition no_params : rrule_params := mkParams None None None None.

(** The tables after event 1 got an occurrence on 2024-01-08 and then one
    on 2024-01-01, each by a call of [add_occurrences]. *)
Definition later_then_earlier_db : DB :=
  snd (add_occurrences Rrule.rrule 1 (jan_2024 1 18 0) (jan_2024 1 19 30)
         no_params
         (snd (add_occurrences Rrule.rrule 1 (jan_2024 8 18 0)
                 (jan_2024 8 19 30) no_params empty_db))).

(** The row [event_cls.objects.create] inserts, and the tables with it. *)
Definition new_event (db : DB) (title_ description_ : string)
    (event_type_ : Z) : Event :=
  mkEvent (next_pk (map ev_id (events db))) title_ description_ event_type_.

Definition with_new_event (db : DB) (ev : Event) : DB :=
  mkDB (event_types db) (events db ++ [ev]) (occurrences db).

(** The row [get_or_create] inserts when it creates, and the tables with
    it. *)
Definition new_event_type (db : DB) (abbr_ label_ : string) : EventType :=
  mkEventType (next_pk (map et_id (event_types db))) abbr_ label_.

Definition with_new_event_type (db : DB) (et : EventType) : DB :=
  mkDB (event_types db ++ [et]) (events db) (occurrences db).

(** Tables as the database keeps them: abbreviations unique
    ([unique=True]), primary keys unique, and every foreign key referring to
    a row that is there. *)
Definition consistent (db : DB) : Prop :=
  NoDup (map abbr (event_types db))
  /\ NoDup (map et_id (event_types db))
  /\ NoDup (map ev_id (events db))
  /\ NoDup (map occ_id (occurrences db))
  /\ (forall e, In e (events db) ->
        In (event_type e) (map et_id (event_types db)))
  /\ (forall o, In o (occurrences db) ->
        In (event o) (map ev_id (events db))).

(* ================================================================== *)
(** * Properties *)

(* ------------------------------------------------------------------ *)
(** ** The fields of a datetime *)

Ltac unfold_time :=
  unfold replace_microsecond_0, replace_minute_second_microsecond_0,
    replace_hms_235959, midnight, make, toordinal, hour, minute, second,
    microsecond, DT_END, MAXORDINAL, US_PER_DAY, US_PER_HOUR, US_PER_MINUTE,
    US_PER_SECOND in *;
  simpl Z.mul in *.

Ltac time_arith := unfold_time; Z.to_euclidean_division_equations; lia.

Lemma make_fields (ord h m s us : Z) :
  0 <= h < 24 -> 0 <= m < 60 -> 0 <= s < 60 -> 0 <= us < 1000000 ->
  toordinal (make ord h m s us) = ord /\ hour (make ord h m s us) = h
  /\ minute (make ord h m s us) = m /\ second (make ord h m s us) = s
  /\ microsecond (make ord h m s us) = us.
Proof. intros. repeat split; time_arith. Qed.

Lemma fields_range (t : datetime) :
  0 <= hour t < 24 /\ 0 <= minute t < 60 /\ 0 <= second t < 60
  /\ 0 <= microsecond t < 1000000.
Proof. repeat split; time_arith. Qed.

Lemma make_of_fields (t : datetime) :
  make (toordinal t) (hour t) (minute t) (second t) (microsecond t) = t.
Proof. time_arith. Qed.

Lemma replace_microsecond_0_eq (t : datetime) :
  replace_microsecond_0 t = t - t mod US_PER_SECOND.
Proof. time_arith. Qed.

Lemma replace_microsecond_0_whole (t : datetime) :
  microsecond t = 0 -> replace_microsecond_0 t = t.
Proof. intros H. rewrite replace_microsecond_0_eq. unfold microsecond in H. lia. Qed.

Lemma replace_microsecond_0_bounds (t : datetime) :
  replace_microsecond_0 t <= t < replace_microsecond_0 t + US_PER_SECOND.
Proof. time_arith. Qed.

Lemma replace_minute_second_microsecond_0_eq (t : datetime) :
  replace_minute_second_microsecond_0 t = t - t mod US_PER_HOUR.
Proof. time_arith. Qed.

Lemma midnight_eq (t : datetime) : midnight t = t - t mod US_PER_DAY.
Proof. time_arith. Qed.

Lemma end_of_day_eq (t : datetime) :
  replace_hms_235959 (midnight t) = make (toordinal t) 23 59 59 0.
Proof. time_arith. Qed.

Lemma valid_iff (t : datetime) : valid t = true <-> 0 <= t < DT_END.
Proof. unfold valid. rewrite andb_true_iff, Z.leb_le, Z.ltb_lt. tauto. Qed.

Lemma add_Some (t : datetime) (d : timedelta) :
  0 <= t + d < DT_END -> Datetime.add t d = Some (t + d).
Proof.
  intros H. unfold Datetime.add.
  destruct (valid (t + d)) eqn:E; [reflexivity|].
  apply valid_iff in H. congruence.
Qed.

Lemma add_inv t d e : Datetime.add t d = Some e -> e = t + d.
Proof.
  unfold Datetime.add. destruct (valid (t + d)); [|discriminate].
  now intros [= <-].
Qed.

(* ------------------------------------------------------------------ *)
(** ** The calendar at known dates *)

Example ymd2ord_2024_01_01 : Calendar.ymd2ord 2024 1 1 = 738886.
Proof. reflexivity. Qed.

Example ymd2ord_1970_01_01 : Calendar.ymd2ord 1970 1 1 = 719163.
Proof. reflexivity. Qed.

Example ord2ymd_2024_02_29 :
  Calendar.ord2ymd (Calendar.ymd2ord 2024 2 29) = (2024, 2, 29).
Proof. reflexivity. Qed.

Example ord2ymd_max : Calendar.ord2ymd MAXORDINAL = (9999, 12, 31).
Proof. reflexivity. Qed.

Example ord2ymd_1999_12_31 :
  Calendar.ord2ymd (Calendar.ymd2ord 2000 1 1 - 1) = (1999, 12, 31).
Proof. reflexivity. Qed.

(* ------------------------------------------------------------------ *)
(** ** Inserting occurrences *)

Lemma filter_nil_of_false {A} (p : A -> bool) (l : list A) :
  (forall x, In x l -> p x = false) -> filter p l = [].
Proof.
  induction l as [|x l IH]; intros H; simpl; [reflexivity|].
  rewrite (H x) by now left. apply IH. intros y Hy. apply H. now right.
Qed.

Lemma bulk_insert_appends (objs : list unsaved) :
  forall rows, exists news,
    fold_left insert_occurrence objs rows = rows ++ news
    /\ map occ_data news = objs.
Proof.
  induction objs as [|u objs IH]; intros rows; simpl.
  - exists []. now rewrite app_nil_r.
  - destruct (IH (insert_occurrence rows u)) as (news & Hf & Hd).
    exists (mkOccurrence (next_pk (map occ_id rows))
              (u_event u) (u_start_time u) (u_end_time u) :: news).
    split.
    + rewrite Hf. unfold insert_occurrence. now rewrite <- app_assoc.
    + simpl. rewrite Hd. now destruct u.
Qed.

Lemma bulk_create_appends (objs : list unsaved) (db : DB) :
  exists news,
    occurrence_set_bulk_create objs db = (inr tt, with_new_occurrences db news)
    /\ map occ_data news = objs.
Proof.
  destruct (bulk_insert_appends objs (occurrences db)) as (news & Hf & Hd).
  exists news. split; [|exact Hd].
  unfold occurrence_set_bulk_create, with_new_occurrences. now rewrite Hf.
Qed.

Lemma build_occurrences_ok (self : Z) (delta : timedelta) (evs : list datetime) :
  (forall ev, In ev evs -> 0 <= ev + delta < DT_END) ->
  build_occurrences self delta evs
  = inr (map (fun ev => mkUnsaved self ev (ev + delta)) evs).
Proof.
  induction evs as [|ev evs IH]; intros H; simpl; [reflexivity|].
  rewrite add_Some by (apply H; now left).
  rewrite IH by (intros; apply H; now right). reflexivity.
Qed.

Lemma build_occurrences_inv self delta evs occs :
  build_occurrences self delta evs = inr occs ->
  map u_start_time occs = evs
  /\ forall u, In u occs ->
       u_event u = self /\ u_end_time u = u_start_time u + delta.
Proof.
  revert occs. induction evs as [|ev evs IH]; intros occs H; simpl in H.
  - injection H as <-. split; [reflexivity|]. intros u [].
  - destruct (Datetime.add ev delta) as [e|] eqn:Ea; [|discriminate].
    destruct (build_occurrences self delta evs) as [x|occs'] eqn:Eb;
      [discriminate|].
    injection H as <-. destruct (IH occs' eq_refl) as (IH1 & IH2).
    apply add_inv in Ea. split.
    + simpl. now rewrite IH1.
    + intros u [<-|Hu]; [simpl; auto|auto].
Qed.

Lemma occ_data_fields news occs o :
  map occ_data news = occs -> In o news -> In (occ_data o) occs.
Proof. intros <- H. now apply in_map. Qed.

Lemma map_occ_data_fields news self delta evs :
  map occ_data news = map (fun ev => mkUnsaved self ev (ev + delta)) evs ->
  map start_time news = evs
  /\ (forall o, In o news -> event o = self
                             /\ end_time o = start_time o + delta).
Proof.
  revert evs. induction news as [|o news IH]; intros [|ev evs] H;
    simpl in H; try discriminate.
  - split; [reflexivity|]. intros o [].
  - injection H as He Hs Hen Hrest.
    destruct (IH _ Hrest) as (IH1 & IH2). split.
    + simpl. now rewrite IH1, Hs.
    + intros o' [<-|Hin]; [split; [assumption|lia]|auto].
Qed.

Lemma with_no_new_occurrences db : with_new_occurrences db [] = db.
Proof. destruct db. unfold with_new_occurrences. simpl. now rewrite app_nil_r. Qed.

(* ------------------------------------------------------------------ *)
(** ** The loop of the rule *)

Lemma anchors_from_S pos step n :
  anchors_from pos step (S n) = pos :: anchors_from (pos + step) step n.
Proof.
  unfold anchors_from. simpl. f_equal; [lia|].
  rewrite <- seq_shift, map_map. apply map_ext. intros k. lia.
Qed.

Lemma in_anchors_from pos step n a :
  In a (anchors_from pos step n)
  <-> exists k, 0 <= k < Z.of_nat n /\ a = pos + k * step.
Proof.
  unfold anchors_from. rewrite in_map_iff. split.
  - intros (k & <- & Hk). apply in_seq in Hk. exists (Z.of_nat k).
    split; [lia|reflexivity].
  - intros (k & Hk & ->). exists (Z.to_nat k). split.
    + rewrite Z2Nat.id by lia. reflexivity.
    + apply in_seq. lia.
Qed.

Lemma length_anchors_from pos step n :
  List.length (anchors_from pos step n) = n.
Proof. unfold anchors_from. now rewrite length_map, length_seq. Qed.

Lemma period_pos f per : Rrule.period f = Some per -> 1 <= per.
Proof.
  destruct f; simpl; intros H; inversion H;
    unfold US_PER_DAY, US_PER_HOUR, US_PER_MINUTE, US_PER_SECOND; lia.
Qed.

Lemma periods_left_nonneg f step until pos :
  0 <= Rrule.periods_left f step until pos.
Proof. unfold Rrule.periods_left. lia. Qed.

Lemma periods_left_end f step until pos :
  1 <= step -> Rrule.pos_end f until <= pos ->
  Rrule.periods_left f step until pos = 0.
Proof.
  intros Hs Hp. unfold Rrule.periods_left.
  assert ((Rrule.pos_end f until - pos + step - 1) / step <= 0); [|lia].
  destruct (Z.eq_dec (Rrule.pos_end f until - pos + step - 1) (step - 1)) as [E|E].
  - rewrite E. rewrite Z.div_small; lia.
  - assert ((Rrule.pos_end f until - pos + step - 1) / step < 1); [|lia].
    apply Z.div_lt_upper_bound; lia.
Qed.

Lemma periods_left_step f step until pos :
  1 <= step -> pos < Rrule.pos_end f until ->
  Rrule.periods_left f step until pos
  = 1 + Rrule.periods_left f step until (pos + step).
Proof.
  intros Hs Hp. unfold Rrule.periods_left.
  replace (Rrule.pos_end f until - pos + step - 1)
    with ((Rrule.pos_end f until - (pos + step) + step - 1) + 1 * step) by lia.
  rewrite Z.div_add by lia.
  assert (0 <= (Rrule.pos_end f until - (pos + step) + step - 1) / step).
  { apply Z.div_pos; lia. }
  lia.
Qed.

(** Periods left, as a bound on the index of an anchor. *)
Lemma periods_left_spec f step until pos k :
  1 <= step -> 0 <= k ->
  (k < Rrule.periods_left f step until pos
   <-> pos + k * step < Rrule.pos_end f until).
Proof.
  intros Hs Hk. unfold Rrule.periods_left.
  set (e := Rrule.pos_end f until).
  split; intros H.
  - assert (Hd : k + 1 <= (e - pos + step - 1) / step) by lia.
    assert (step * ((e - pos + step - 1) / step) <= e - pos + step - 1).
    { apply Z.mul_div_le. lia. }
    nia.
  - assert (k + 1 <= (e - pos + step - 1) / step); [|lia].
    apply Z.div_le_lower_bound; nia.
Qed.

Lemma pos_end_fixed f per until :
  Rrule.period f = Some per ->
  Rrule.pos_end f until
  = match until with Some u => Z.min DT_END (u + 1) | None => DT_END end.
Proof. destruct f; simpl; intros H; try discriminate; reflexivity. Qed.

Lemma candidate_fixed_in f per dtstart pos :
  Rrule.period f = Some per -> pos < DT_END ->
  Rrule.candidate_at f dtstart pos = Rrule.Emit pos.
Proof.
  intros Hf Hp.
  assert (Hend : (DT_END <=? pos) = false) by (apply Z.leb_gt; lia).
  destruct f; simpl in Hf; try discriminate; simpl; rewrite Hend;
    try reflexivity.
  destruct (pos =? dtstart); [reflexivity|].
  replace (MAXORDINAL <? Rrule.week_start pos) with false; [reflexivity|].
  symmetry. apply Z.ltb_ge. unfold Rrule.week_start.
  pose proof (Z.mod_pos_bound (weekday pos - Rrule.wkst) 7 ltac:(lia)).
  assert (toordinal pos <= MAXORDINAL); [|lia].
  unfold toordinal, DT_END, MAXORDINAL, US_PER_DAY, US_PER_HOUR,
    US_PER_MINUTE, US_PER_SECOND in *.
  Z.to_euclidean_division_equations. lia.
Qed.

Lemma candidate_fixed_out f per dtstart pos :
  Rrule.period f = Some per -> dtstart < DT_END -> DT_END <= pos ->
  Rrule.candidate_at f dtstart pos = Rrule.Stop
  \/ Rrule.candidate_at f dtstart pos = Rrule.Fail.
Proof.
  intros Hf Hd Hp.
  assert (Hend : (DT_END <=? pos) = true) by (apply Z.leb_le; lia).
  destruct f; simpl in Hf; try discriminate; simpl; rewrite Hend; auto.
  replace (pos =? dtstart) with false by (symmetry; apply Z.eqb_neq; lia).
  destruct (MAXORDINAL <? Rrule.week_start pos); auto.
Qed.

(** Only a weekly rule has a period that raises. *)
Lemma candidate_fail_weekly f dtstart pos :
  Rrule.candidate_at f dtstart pos = Rrule.Fail -> f = WEEKLY.
Proof.
  destruct f; simpl; try reflexivity;
    try (destruct (DT_END <=? pos); discriminate);
    destruct (ord2ymd (toordinal dtstart)) as [[y m] d];
    destruct (MAXYEAR <? _); try discriminate;
    destruct (d <=? _); discriminate.
Qed.

Lemma period_raises_weekly f first i k :
  period_raises f first i k = true -> f = WEEKLY.
Proof.
  unfold period_raises.
  destruct (Rrule.candidate_at f first _) eqn:E; try discriminate.
  intros _. now apply candidate_fail_weekly in E.
Qed.

(** The loop of a frequency of fixed length: an arithmetic progression,
    and the candidate after it decides how the loop ends. *)
Lemma iter_fixed_closed f per dtstart step until :
  Rrule.period f = Some per -> 1 <= step -> dtstart < DT_END ->
  forall fuel count pos, dtstart <= pos ->
    Rrule.iter fuel f dtstart step until count pos
    = mkGenerated
        (anchors_from pos step
           (Nat.min fuel (Rrule.fuel_for f step until count pos)))
        (if (Rrule.fuel_for f step until count pos <? fuel)%nat
         then match Rrule.candidate_at f dtstart
                      (pos + Z.of_nat (Rrule.fuel_for f step until count pos)
                             * step) with
              | Rrule.Fail => Some ValueError
              | _ => None
              end
         else None).
Proof.
  intros Hf Hs Hd. induction fuel as [|fuel IH]; intros count pos Hp.
  - reflexivity.
  - cbn [Rrule.iter].
    pose proof (periods_left_nonneg f step until pos) as Hnn.
    assert (Hzero : Rrule.periods_left f step until pos = 0 ->
              Rrule.fuel_for f step until count pos = 0%nat).
    { intros E. unfold Rrule.fuel_for. rewrite Hf, E.
      destruct count as [c|]; [|reflexivity]. lia. }
    assert (Hclose : forall c,
              Rrule.periods_left f step until pos = 0 ->
              Rrule.candidate_at f dtstart pos = c ->
              mkGenerated []
                match c with Rrule.Fail => Some ValueError | _ => None end
              = mkGenerated
                  (anchors_from pos step
                     (Nat.min (S fuel) (Rrule.fuel_for f step until count pos)))
                  (if (Rrule.fuel_for f step until count pos <? S fuel)%nat
                   then match Rrule.candidate_at f dtstart
                                (pos + Z.of_nat (Rrule.fuel_for f step until
                                                   count pos) * step) with
                        | Rrule.Fail => Some ValueError
                        | _ => None
                        end
                   else None)).
    { intros c E Hc. rewrite (Hzero E). cbn [Nat.min Nat.ltb Nat.leb].
      rewrite Z.mul_0_l, Z.add_0_r, Hc. reflexivity. }
    destruct (Z.le_gt_cases DT_END pos) as [Hend|Hin].
    { assert (E : Rrule.periods_left f step until pos = 0).
      { apply periods_left_end; [assumption|].
        rewrite (pos_end_fixed _ _ _ Hf). destruct until; lia. }
      destruct (candidate_fixed_out _ _ dtstart _ Hf Hd Hend) as [Hc|Hc];
        rewrite Hc; rewrite <- (Hclose _ E Hc); reflexivity. }
    pose proof (candidate_fixed_in _ _ dtstart _ Hf Hin) as Hc. rewrite Hc.
    destruct (Rrule.after_until until pos) eqn:Eu.
    { destruct until as [u|]; simpl in Eu; [|discriminate].
      apply Z.ltb_lt in Eu.
      assert (E : Rrule.periods_left f step (Some u) pos = 0).
      { apply periods_left_end; [assumption|].
        rewrite (pos_end_fixed _ _ _ Hf). lia. }
      rewrite <- (Hclose _ E Hc). reflexivity. }
    assert (Hlt : pos < Rrule.pos_end f until).
    { rewrite (pos_end_fixed _ _ _ Hf).
      destruct until as [u|]; simpl in Eu; [apply Z.ltb_ge in Eu|]; lia. }
    replace (dtstart <=? pos) with true by (symmetry; apply Z.leb_le; lia).
    pose proof (periods_left_step _ _ _ _ Hs Hlt) as Hstep.
    pose proof (periods_left_nonneg f step until (pos + step)) as Hnn'.
    assert (Hsucc : forall count',
              Rrule.fuel_for f step until count pos
              = S (Rrule.fuel_for f step until count' (pos + step)) ->
              mkGenerated
                (pos :: yielded (Rrule.iter fuel f dtstart step until count'
                                   (pos + step)))
                (raised (Rrule.iter fuel f dtstart step until count'
                           (pos + step)))
              = mkGenerated
                  (anchors_from pos step
                     (Nat.min (S fuel) (Rrule.fuel_for f step until count pos)))
                  (if (Rrule.fuel_for f step until count pos <? S fuel)%nat
                   then match Rrule.candidate_at f dtstart
                                (pos + Z.of_nat (Rrule.fuel_for f step until
                                                   count pos) * step) with
                        | Rrule.Fail => Some ValueError
                        | _ => None
                        end
                   else None)).
    { intros count' E. rewrite E, IH by lia. cbn [yielded raised Nat.min].
      rewrite anchors_from_S. f_equal.
      change (S ?a <? S ?b)%nat with (a <? b)%nat.
      rewrite Nat2Z.inj_succ.
      replace (pos + Z.succ (Z.of_nat (Rrule.fuel_for f step until count'
                                         (pos + step))) * step)
        with (pos + step
              + Z.of_nat (Rrule.fuel_for f step until count' (pos + step))
                * step) by lia.
      reflexivity. }
    destruct count as [c|]; unfold Rrule.take_one.
    + destruct (c - 1 <? 0) eqn:Ec.
      * apply Z.ltb_lt in Ec.
        assert (E : Rrule.fuel_for f step until (Some c) pos = 0%nat).
        { unfold Rrule.fuel_for. rewrite Hf. lia. }
        rewrite E. cbn [Nat.min Nat.ltb Nat.leb].
        rewrite Z.mul_0_l, Z.add_0_r, Hc. reflexivity.
      * apply Z.ltb_ge in Ec. cbv zeta. apply Hsucc.
        unfold Rrule.fuel_for. rewrite Hf, Hstep. lia.
    + cbv zeta. apply Hsucc.
      unfold Rrule.fuel_for. rewrite Hf, Hstep. lia.
Qed.

Lemma iter_bounds f dtstart step until :
  forall fuel count pos a,
    In a (yielded (Rrule.iter fuel f dtstart step until count pos)) ->
    dtstart <= a /\ Rrule.after_until until a = false.
Proof.
  induction fuel as [|fuel IH]; intros count pos a; simpl; [tauto|].
  destruct (Rrule.candidate_at f dtstart pos) as [| | |res];
    [simpl; tauto|simpl; tauto|apply IH|].
  destruct (Rrule.after_until until res) eqn:Eu; [simpl; tauto|].
  destruct (dtstart <=? res) eqn:Ed; [|apply IH].
  destruct (Rrule.take_one count) as [count'|]; [|simpl; tauto].
  simpl. intros [<-|H]; [|eapply IH; eassumption].
  apply Z.leb_le in Ed. auto.
Qed.

Lemma iter_length_count f dtstart step until :
  forall fuel c pos,
    (List.length (yielded (Rrule.iter fuel f dtstart step until (Some c) pos))
     <= Z.to_nat c)%nat.
Proof.
  induction fuel as [|fuel IH]; intros c pos; simpl; [lia|].
  destruct (Rrule.candidate_at f dtstart pos) as [| | |res];
    [simpl; lia|simpl; lia|apply IH|].
  destruct (Rrule.after_until until res); [simpl; lia|].
  destruct (dtstart <=? res); [|apply IH].
  destruct (c - 1 <? 0) eqn:Ec; [simpl; lia|].
  apply Z.ltb_ge in Ec. simpl. specialize (IH (c - 1) (pos + step)). lia.
Qed.

Lemma candidate_stop_calendar f dtstart until pos :
  Rrule.period f = None -> Rrule.pos_end f until <= pos ->
  Rrule.candidate_at f dtstart pos = Rrule.Stop.
Proof.
  intros Hf Hp. destruct f; simpl in Hf; try discriminate;
    unfold Rrule.candidate_at, Rrule.pos_end, Calendar.MAXYEAR in *;
    destruct (Calendar.ord2ymd (toordinal dtstart)) as [[y m] d].
  - replace (9999 <? pos) with true; [reflexivity|].
    symmetry. apply Z.ltb_lt. lia.
  - replace (9999 <? pos / 12) with true; [reflexivity|].
    symmetry. apply Z.ltb_lt.
    assert (10000 <= pos / 12); [|lia].
    apply Z.div_le_lower_bound; lia.
Qed.

Lemma iter_calendar_fuel f dtstart step until :
  Rrule.period f = None -> 1 <= step ->
  forall fuel count pos,
    (S (Z.to_nat (Rrule.periods_left f step until pos)) <= fuel)%nat ->
    Rrule.iter fuel f dtstart step until count pos
    = Rrule.iter (S (Z.to_nat (Rrule.periods_left f step until pos)))
        f dtstart step until count pos.
Proof.
  intros Hf Hs. induction fuel as [|fuel IH]; intros count pos Hfuel; [lia|].
  destruct (Z.le_gt_cases (Rrule.pos_end f until) pos) as [Hend|Hlt].
  - rewrite periods_left_end by assumption. simpl.
    now rewrite (candidate_stop_calendar _ _ _ _ Hf Hend).
  - rewrite (periods_left_step _ _ _ _ Hs Hlt) in *.
    pose proof (periods_left_nonneg f step until (pos + step)) as Hnn.
    replace (Z.to_nat (1 + Rrule.periods_left f step until (pos + step)))
      with (S (Z.to_nat (Rrule.periods_left f step until (pos + step))))
      in * by lia.
    cbn [Rrule.iter].
    destruct (Rrule.candidate_at f dtstart pos) as [| | |res];
      [reflexivity|reflexivity|apply IH; lia|].
    destruct (Rrule.after_until until res); [reflexivity|].
    destruct (dtstart <=? res); [|apply IH; lia].
    destruct (Rrule.take_one count) as [count'|]; [|reflexivity].
    cbv zeta. rewrite IH by lia. reflexivity.
Qed.

(** More periods than [fuel_for] counts, and the one after them, change
    nothing: the loop of the rule has ended by then. *)
Lemma iter_fuel_enough f dtstart step until count fuel :
  1 <= step -> dtstart < DT_END ->
  (S (Rrule.fuel_for f step until count (Rrule.origin f dtstart))
   <= fuel)%nat ->
  Rrule.iter fuel f dtstart step until count (Rrule.origin f dtstart)
  = Rrule.iter (S (Rrule.fuel_for f step until count (Rrule.origin f dtstart)))
      f dtstart step until count (Rrule.origin f dtstart).
Proof.
  intros Hs Hd Hfuel. destruct (Rrule.period f) as [per|] eqn:Hf.
  - assert (Ho : Rrule.origin f dtstart = dtstart).
    { destruct f; simpl in Hf; try discriminate; reflexivity. }
    rewrite Ho in *.
    rewrite !(iter_fixed_closed _ _ _ _ _ Hf Hs Hd) by lia.
    set (ff := Rrule.fuel_for f step until count dtstart) in *.
    replace (Nat.min fuel ff) with ff by lia.
    replace (Nat.min (S ff) ff) with ff by lia.
    replace (ff <? fuel)%nat with true by (symmetry; apply Nat.ltb_lt; lia).
    replace (ff <? S ff)%nat with true by (symmetry; apply Nat.ltb_lt; lia).
    reflexivity.
  - unfold Rrule.fuel_for in *. rewrite Hf in *.
    now apply iter_calendar_fuel.
Qed.

(* ------------------------------------------------------------------ *)
(** ** The rule consumed *)

Lemma setdefault_freq_fields (p : rrule_params) :
  freq (setdefault_freq p) = Some (freq_or_daily (freq p))
  /\ interval (setdefault_freq p) = interval p
  /\ count (setdefault_freq p) = count p
  /\ until (setdefault_freq p) = until p
  /\ by_rules (setdefault_freq p) = by_rules p.
Proof.
  unfold setdefault_freq. destruct p as [[f|] i c u b]; simpl; auto 6.
Qed.

(** The rule of parameters without secondary constraints, as the loop it
    runs. *)
Lemma rrule_unfold (st : datetime) (p : rrule_params) :
  by_rules p = [] -> 1 <= interval_or_1 (interval p) ->
  let fr := freq_or_daily (freq p) in
  let first := replace_microsecond_0 st in
  let step := Rrule.stride fr (interval_or_1 (interval p)) in
  Rrule.rrule st (setdefault_freq p)
  = Rrule.iter
      (S (Rrule.fuel_for fr step (until p) (count p) (Rrule.origin fr first)))
      fr first step (until p) (count p) (Rrule.origin fr first).
Proof.
  intros Hby Hi fr first step.
  destruct (setdefault_freq_fields p) as (Hf & Hint & Hc & Hu & Hb).
  unfold Rrule.rrule. rewrite Hf, Hint, Hc, Hu, Hb, Hby.
  fold (interval_or_1 (interval p)).
  destruct (interval_or_1 (interval p) <? 1) eqn:E; [apply Z.ltb_lt in E; lia|].
  reflexivity.
Qed.

(** The rule for a frequency of fixed period: an arithmetic progression,
    and the candidate after it decides how the iteration ends. *)
Lemma rrule_fixed_closed (st : datetime) (p : rrule_params) (per : Z) :
  by_rules p = [] ->
  Rrule.period (freq_or_daily (freq p)) = Some per ->
  1 <= interval_or_1 (interval p) ->
  replace_microsecond_0 st < DT_END ->
  let fr := freq_or_daily (freq p) in
  let first := replace_microsecond_0 st in
  let step := interval_or_1 (interval p) * per in
  let n := Rrule.fuel_for fr step (until p) (count p) first in
  Rrule.rrule st (setdefault_freq p)
  = mkGenerated (anchors_from first step n)
      match Rrule.candidate_at fr first (first + Z.of_nat n * step) with
      | Rrule.Fail => Some ValueError
      | _ => None
      end.
Proof.
  intros Hby Hper Hi Hd fr first step n.
  rewrite (rrule_unfold st p Hby Hi). cbv zeta. fold fr first.
  assert (Hstride : Rrule.stride fr (interval_or_1 (interval p)) = step).
  { unfold Rrule.stride, fr. now rewrite Hper. }
  assert (Hor : Rrule.origin fr first = first).
  { unfold fr in *. destruct (freq_or_daily (freq p)); simpl in Hper;
      try discriminate; reflexivity. }
  rewrite Hstride, Hor. fold n.
  assert (Hstep : 1 <= step).
  { pose proof (period_pos _ _ Hper). unfold step. nia. }
  rewrite (iter_fixed_closed _ _ _ _ _ Hper Hstep Hd) by lia.
  change (Rrule.fuel_for (freq_or_daily (freq p)) step (until p) (count p)
            first) with n.
  replace (Nat.min (S n) n) with n by lia.
  replace (n <? S n)%nat with true by (symmetry; apply Nat.ltb_lt; lia).
  reflexivity.
Qed.

(** A rule never raises when no period of it does: so for every frequency
    but the weekly one. *)
Lemma iter_never_fails f dtstart step until :
  (forall pos, Rrule.candidate_at f dtstart pos <> Rrule.Fail) ->
  forall fuel count pos,
    raised (Rrule.iter fuel f dtstart step until count pos) = None.
Proof.
  intros Hnf. induction fuel as [|fuel IH]; intros count pos; [reflexivity|].
  cbn [Rrule.iter]. pose proof (Hnf pos) as Hp.
  destruct (Rrule.candidate_at f dtstart pos) as [| | |res];
    [reflexivity|congruence|apply IH|].
  destruct (Rrule.after_until until res); [reflexivity|].
  destruct (dtstart <=? res); [|apply IH].
  destruct (Rrule.take_one count) as [count'|]; [|reflexivity].
  cbn [raised]. apply IH.
Qed.

(** A rule whose first candidate is after [until] yields nothing and ends
    at once. *)
Lemma iter_until_before_start f dtstart step U :
  U < dtstart ->
  forall fuel count pos,
    yielded (Rrule.iter fuel f dtstart step (Some U) count pos) = [].
Proof.
  intros HU fuel count pos.
  destruct (yielded _) as [|a l'] eqn:El; [reflexivity|].
  assert (Hin : In a (a :: l')) by now left.
  rewrite <- El in Hin. apply iter_bounds in Hin. destruct Hin as (H1 & H2).
  simpl in H2. apply Z.ltb_ge in H2. lia.
Qed.

Lemma rrule_until_before_start st p U :
  by_rules p = [] ->
  until p = Some U -> 1 <= interval_or_1 (interval p) ->
  U < replace_microsecond_0 st ->
  Rrule.rrule st (setdefault_freq p) = mkGenerated [] None.
Proof.
  intros Hby Hu Hi HU.
  rewrite (rrule_unfold st p Hby Hi). cbv zeta. rewrite Hu.
  set (fr := freq_or_daily (freq p)).
  set (first := replace_microsecond_0 st) in *.
  set (g := Rrule.iter _ _ _ _ _ _ _).
  assert (Hy : yielded g = []) by now apply iter_until_before_start.
  assert (Hr : raised g = None).
  { destruct (Rrule.period fr) as [per|] eqn:Hper.
    - assert (Hor : Rrule.origin fr first = first).
      { destruct fr; simpl in Hper; try discriminate; reflexivity. }
      unfold g. rewrite Hor. cbn [Rrule.iter].
      assert (Hafter : Rrule.after_until (Some U) first = true)
        by (simpl; apply Z.ltb_lt; lia).
      destruct (Z.lt_ge_cases first DT_END) as [Hin|Hout].
      + rewrite (candidate_fixed_in _ _ first _ Hper Hin), Hafter.
        reflexivity.
      + destruct fr; simpl in Hper; try discriminate; simpl;
          rewrite ?Z.eqb_refl;
          try (replace (DT_END <=? first) with true
                 by (symmetry; apply Z.leb_le; lia));
          try reflexivity.
        cbn [Rrule.after_until]. 
        replace (U <? first) with true by (symmetry; apply Z.ltb_lt; lia).
        reflexivity.
    - apply iter_never_fails. intros pos H.
      apply candidate_fail_weekly in H. unfold fr in *.
      rewrite H in Hper. discriminate. }
  destruct g as [y r]. simpl in Hy, Hr. now subst.
Qed.

(** The rule does not depend on the fuel it is run with, once that is
    enough. *)
Lemma rrule_fuel_enough (st : datetime) (p : rrule_params) (f : Freq)
    (fuel : nat) :
  by_rules p = [] ->
  freq p = Some f -> 1 <= interval_or_1 (interval p) ->
  replace_microsecond_0 st < DT_END ->
  let dtstart := replace_microsecond_0 st in
  let step := Rrule.stride f (interval_or_1 (interval p)) in
  (S (Rrule.fuel_for f step (until p) (count p) (Rrule.origin f dtstart))
   <= fuel)%nat ->
  Rrule.rrule st p
  = Rrule.iter fuel f dtstart step (until p) (count p)
      (Rrule.origin f dtstart).
Proof.
  intros Hby Hf Hi Hd dtstart step Hfuel. unfold Rrule.rrule. rewrite Hf, Hby.
  fold (interval_or_1 (interval p)).
  destruct (interval_or_1 (interval p) <? 1) eqn:E; [apply Z.ltb_lt in E; lia|].
  simpl orb. cbv iota. fold dtstart step. symmetry.
  apply iter_fuel_enough; [|assumption|assumption].
  unfold step, Rrule.stride. destruct (Rrule.period f) as [per|] eqn:Hp; [|lia].
  pose proof (period_pos _ _ Hp). nia.
Qed.

(** For every frequency, the monthly and the yearly too, without secondary
    constraints and with [interval >= 1]: what the rule yields is not
    before the start (microseconds zeroed), not after [until], and not more
    than [count]. *)
Theorem rrule_within_bounds :
  forall (st : datetime) (p : rrule_params),
    by_rules p = [] ->
    1 <= interval_or_1 (interval p) ->
    Forall (fun ev =>
              replace_microsecond_0 st <= ev
              /\ match until p with
                 | Some U => ev <= U
                 | None => True
                 end) (yielded (Rrule.rrule st p))
    /\ match count p with
       | Some c => (List.length (yielded (Rrule.rrule st p)) <= Z.to_nat c)%nat
       | None => True
       end.
Proof.
  intros st p _ _. unfold Rrule.rrule.
  destruct (freq p) as [f|];
    [|split; [constructor|destruct (count p); simpl; [lia|exact I]]].
  destruct (negb _ || _);
    [split; [constructor|destruct (count p); simpl; [lia|exact I]]|].
  split.
  - apply Forall_forall. intros ev Hin. apply iter_bounds in Hin.
    destruct Hin as (H1 & H2). split; [assumption|].
    destruct (until p) as [U|]; [|exact I].
    simpl in H2. now apply Z.ltb_ge in H2.
  - destruct (count p) as [c|]; [|exact I]. apply iter_length_count.
Qed.

(** A monthly rule from the 31st passes over the months without one. *)
Example rrule_monthly_31st :
  Rrule.rrule (datetime_of 2024 1 31 18 0 0 0)
    (mkParams (Some MONTHLY) None (Some 3) None)
  = mkGenerated
      [datetime_of 2024 1 31 18 0 0 0; datetime_of 2024 3 31 18 0 0 0;
       datetime_of 2024 5 31 18 0 0 0] None.
Proof. vm_compute. reflexivity. Qed.

(** A yearly rule from a 29th of February yields leap years only. *)
Example rrule_yearly_leap_day :
  Rrule.rrule (datetime_of 2024 2 29 9 30 0 0)
    (mkParams (Some YEARLY) None None (Some (datetime_of 2033 1 1 0 0 0 0)))
  = mkGenerated
      [datetime_of 2024 2 29 9 30 0 0; datetime_of 2028 2 29 9 30 0 0;
       datetime_of 2032 2 29 9 30 0 0] None.
Proof. vm_compute. reflexivity. Qed.

(** The rule ends with the year 9999, whatever is left of [count]. *)
Example rrule_daily_end_of_range :
  Rrule.rrule (datetime_of 9999 12 30 18 0 0 0)
    (mkParams (Some DAILY) None (Some 5) None)
  = mkGenerated
      [datetime_of 9999 12 30 18 0 0 0; datetime_of 9999 12 31 18 0 0 0] None.
Proof. vm_compute. reflexivity. Qed.

(* ------------------------------------------------------------------ *)
(** ** The calendar: ordinals and dates *)

Lemma is_leap_spec (y : Z) :
  is_leap y = true <-> (y mod 4 = 0 /\ (y mod 100 <> 0 \/ y mod 400 = 0)).
Proof.
  unfold is_leap.
  rewrite andb_true_iff, orb_true_iff, negb_true_iff, !Z.eqb_eq, Z.eqb_neq.
  tauto.
Qed.

Lemma days_before_year_succ (y : Z) :
  days_before_year (y + 1)
  = days_before_year y + 365 + (if is_leap y then 1 else 0).
Proof.
  unfold days_before_year.
  destruct (is_leap y) eqn:E.
  - apply is_leap_spec in E. Z.to_euclidean_division_equations. lia.
  - assert (H : ~ (y mod 4 = 0 /\ (y mod 100 <> 0 \/ y mod 400 = 0))).
    { rewrite <- is_leap_spec. congruence. }
    Z.to_euclidean_division_equations. lia.
Qed.

Ltac split_month m :=
  let H := fresh in
  assert (H : m = 1 \/ m = 2 \/ m = 3 \/ m = 4 \/ m = 5 \/ m = 6 \/ m = 7
              \/ m = 8 \/ m = 9 \/ m = 10 \/ m = 11 \/ m = 12) by lia;
  repeat (destruct H as [H|H]; [|]).

(** The fields of an ordinal, as [ord2ymd] computes them. *)
Lemma ord2ymd_ymd2ord (n : Z) :
  1 <= n ->
  let '(y, m, d) := ord2ymd n in
  ymd2ord y m d = n /\ 1 <= y /\ 1 <= m <= 12 /\ 1 <= d <= days_in_month y m.
Proof.
  intros Hn. unfold ord2ymd.
  set (n0 := n - 1).
  set (n400 := n0 / DI400Y). set (r1 := n0 mod DI400Y).
  set (n100 := r1 / DI100Y). set (r2 := r1 mod DI100Y).
  set (n4 := r2 / DI4Y). set (r3 := r2 mod DI4Y).
  set (n1 := r3 / 365). set (r4 := r3 mod 365).
  assert (Hdec : n0 = n400 * 146097 + r1 /\ 0 <= r1 < 146097
                 /\ r1 = n100 * 36524 + r2 /\ 0 <= r2 < 36524
                 /\ r2 = n4 * 1461 + r3 /\ 0 <= r3 < 1461
                 /\ r3 = n1 * 365 + r4 /\ 0 <= r4 < 365
                 /\ 0 <= n400 /\ 0 <= n100 <= 4 /\ 0 <= n4 <= 24
                 /\ 0 <= n1 <= 4).
  { unfold r4, n1, r3, n4, r2, n100, r1, n400, DI400Y, DI100Y, DI4Y.
    assert (0 <= n0) by (unfold n0; lia).
    Z.to_euclidean_division_equations. lia. }
  clearbody n400 r1 n100 r2 n4 r3 n1 r4.
  destruct Hdec as (E0 & B1 & E1 & B2 & E2 & B3 & E3 & B4 & P400 & P100 & P4 & P1).
  set (Y := n400 * 400 + n100 * 100 + n4 * 4 + n1).
  replace (n400 * 400 + 1 + n100 * 100 + n4 * 4 + n1) with (Y + 1)
    by (unfold Y; lia).
  assert (HY : days_before_year (Y + 1) = n0 - r4
               \/ (n1 = 4 \/ n100 = 4)).
  { destruct (Z.eq_dec n1 4); [now right; left|].
    destruct (Z.eq_dec n100 4); [now right; right|]. left.
    unfold days_before_year, Y. Z.to_euclidean_division_equations. lia. }
  destruct ((n1 =? 4) || (n100 =? 4)) eqn:Eedge.
  - (* the last day of a leap year *)
    apply orb_true_iff in Eedge. rewrite !Z.eqb_eq in Eedge.
    replace (Y + 1 - 1) with Y by lia.
    assert (Hleap : is_leap Y = true).
    { apply is_leap_spec. unfold Y.
      destruct Eedge as [->| ->]; Z.to_euclidean_division_equations; lia. }
    unfold ymd2ord, days_before_month, days_in_month. rewrite Hleap. simpl.
    assert (Hd : days_before_year Y = n0 - 365).
    { unfold days_before_year, Y.
      destruct Eedge as [->| ->]; Z.to_euclidean_division_equations; lia. }
    rewrite Hd. unfold Y, n0 in *. lia.
  - apply orb_false_iff in Eedge. rewrite !Z.eqb_neq in Eedge.
    destruct Eedge as (Hn1 & Hn100).
    destruct HY as [HY|HY]; [|lia].
    set (leapyear := (n1 =? 3) && (negb (n4 =? 24) || (n100 =? 3))).
    assert (Hleap : is_leap (Y + 1) = leapyear).
    { unfold leapyear. apply eq_true_iff_eq. rewrite is_leap_spec.
      rewrite andb_true_iff, orb_true_iff, negb_true_iff, !Z.eqb_eq, Z.eqb_neq.
      unfold Y. split; intros H; Z.to_euclidean_division_equations; lia. }
    assert (Hr4 : r4 < 365 /\ (leapyear = false -> True)) by (split; [lia|trivial]).
    rewrite Z.shiftr_div_pow2 by lia. change (2 ^ 5) with 32.
    set (month := (r4 + 50) / 32).
    assert (Hm : 1 <= month <= 12).
    { unfold month. Z.to_euclidean_division_equations. lia. }
    assert (Hmd : 32 * month <= r4 + 50 < 32 * month + 32).
    { unfold month. Z.to_euclidean_division_equations. lia. }
    clearbody month leapyear.
    split_month month; subst month; destruct leapyear; simpl;
      repeat match goal with
             | |- context [?a <? ?b] => destruct (Z.ltb_spec a b)
             end;
      unfold ymd2ord, days_before_month, days_in_month;
      rewrite Hleap, HY; simpl; unfold n0, Y in *; lia.
Qed.

Lemma days_in_month_bounds (y m : Z) :
  1 <= m <= 12 -> 28 <= days_in_month y m <= 31.
Proof.
  intros Hm. unfold days_in_month.
  split_month m; subst m; simpl; destruct (is_leap y); simpl; lia.
Qed.

Lemma days_before_index_succ (idx : Z) :
  days_before_index (idx + 1)
  = days_before_index idx + days_in_month (idx / 12) (idx mod 12 + 1).
Proof.
  unfold days_before_index.
  set (y := idx / 12). set (m := idx mod 12 + 1).
  assert (Hm : 1 <= m <= 12).
  { unfold m. Z.to_euclidean_division_equations. lia. }
  destruct (Z.eq_dec m 12) as [E|E].
  - assert (Hy : (idx + 1) / 12 = y + 1 /\ (idx + 1) mod 12 + 1 = 1).
    { unfold y, m in *. Z.to_euclidean_division_equations. lia. }
    destruct Hy as (-> & ->). rewrite E, days_before_year_succ.
    unfold days_before_month, days_in_month. simpl.
    destruct (is_leap y), (is_leap (y + 1)); simpl; lia.
  - assert (Hy : (idx + 1) / 12 = y /\ (idx + 1) mod 12 + 1 = m + 1).
    { unfold y, m in *. Z.to_euclidean_division_equations. lia. }
    destruct Hy as (-> & ->). clearbody y m.
    unfold days_before_month, days_in_month.
    split_month m; subst m; simpl; destruct (is_leap y); simpl; lia.
Qed.

Lemma days_before_index_lt (idx idx' : Z) :
  idx < idx' -> days_before_index idx + 28 <= days_before_index idx'.
Proof.
  intros H. replace idx' with (idx + 1 + Z.of_nat (Z.to_nat (idx' - idx - 1)))
    by lia.
  induction (Z.to_nat (idx' - idx - 1)) as [|n IH].
  - rewrite Z.add_0_r, days_before_index_succ.
    assert (28 <= days_in_month (idx / 12) (idx mod 12 + 1)); [|lia].
    apply days_in_month_bounds. Z.to_euclidean_division_equations. lia.
  - replace (idx + 1 + Z.of_nat (S n)) with (idx + 1 + Z.of_nat n + 1) by lia.
    rewrite days_before_index_succ.
    assert (28 <= days_in_month ((idx + 1 + Z.of_nat n) / 12)
                    ((idx + 1 + Z.of_nat n) mod 12 + 1)); [|lia].
    apply days_in_month_bounds. Z.to_euclidean_division_equations. lia.
Qed.

(** Days before a month of a year, along the years. *)
Lemma days_before_month_of_year_lt (y y' m : Z) :
  y < y' ->
  days_before_year y + days_before_month y m + 364
  <= days_before_year y' + days_before_month y' m.
Proof.
  intros H. replace y' with (y + 1 + Z.of_nat (Z.to_nat (y' - y - 1))) by lia.
  induction (Z.to_nat (y' - y - 1)) as [|n IH].
  - rewrite Z.add_0_r, days_before_year_succ. unfold days_before_month.
    destruct (is_leap y), (is_leap (y + 1)), (2 <? m); simpl; lia.
  - replace (y + 1 + Z.of_nat (S n)) with (y + 1 + Z.of_nat n + 1) by lia.
    rewrite days_before_year_succ. unfold days_before_month in *.
    destruct (is_leap (y + 1 + Z.of_nat n)),
      (is_leap (y + 1 + Z.of_nat n + 1)), (is_leap y), (2 <? m);
      simpl in *; lia.
Qed.

Lemma days_before_year_max (y : Z) :
  MAXYEAR < y -> MAXORDINAL <= days_before_year y.
Proof.
  unfold MAXYEAR, MAXORDINAL, days_before_year. intros H.
  Z.to_euclidean_division_equations. lia.
Qed.

Lemma days_before_month_nonneg (y m : Z) : 0 <= days_before_month y m.
Proof.
  unfold days_before_month.
  assert (0 <= DAYS_BEFORE_MONTH m).
  { unfold DAYS_BEFORE_MONTH. destruct m as [|p|p]; try lia.
    do 4 (destruct p; try lia). }
  destruct (_ && _); lia.
Qed.

Lemma at_time_of_index (idx d : Z) (tod : datetime) :
  at_time_of (idx / 12) (idx mod 12 + 1) d tod
  = (days_before_index idx + d - 1) * US_PER_DAY + tod mod US_PER_DAY.
Proof. reflexivity. Qed.

Lemma tod_bounds (t : datetime) : 0 <= t mod US_PER_DAY < US_PER_DAY.
Proof. apply Z.mod_pos_bound. reflexivity. Qed.

(** The first period of a rule holds its start. *)
Lemma candidate_origin (f : Freq) (dtstart : datetime) :
  0 <= dtstart < DT_END ->
  Rrule.candidate_at f dtstart (Rrule.origin f dtstart) = Rrule.Emit dtstart.
Proof.
  intros Hv.
  assert (Hord : 1 <= toordinal dtstart <= MAXORDINAL).
  { unfold toordinal, DT_END, MAXORDINAL, US_PER_DAY, US_PER_HOUR,
      US_PER_MINUTE, US_PER_SECOND in *.
    Z.to_euclidean_division_equations. lia. }
  pose proof (ord2ymd_ymd2ord (toordinal dtstart) (proj1 Hord)) as Hrt.
  assert (Hback : forall y m d, ymd2ord y m d = toordinal dtstart ->
                    at_time_of y m d dtstart = dtstart).
  { intros y m d E. unfold at_time_of. rewrite E. unfold toordinal.
    unfold US_PER_DAY, US_PER_HOUR, US_PER_MINUTE, US_PER_SECOND.
    Z.to_euclidean_division_equations. lia. }
  assert (Hyear : forall y m d, ymd2ord y m d = toordinal dtstart ->
                    1 <= d -> (MAXYEAR <? y) = false).
  { intros y m d E Hd. apply Z.ltb_ge.
    destruct (Z.le_gt_cases y MAXYEAR) as [|Hgt]; [assumption|].
    apply Z.gt_lt_iff in Hgt.
    pose proof (days_before_year_max y) as H1.
    pose proof (days_before_month_nonneg y m) as H2.
    unfold ymd2ord in E. lia. }
  destruct f; unfold Rrule.candidate_at, Rrule.origin; cbv beta iota;
    try (rewrite Z.eqb_refl; reflexivity);
    try (destruct (Z.leb_spec DT_END dtstart); [lia|reflexivity]);
    destruct (ord2ymd (toordinal dtstart)) as [[y m] d];
    destruct Hrt as (E & Hy & Hm & Hd).
  - rewrite (Hyear y m d E) by lia.
    replace (d <=? days_in_month y m) with true
      by (symmetry; apply Z.leb_le; lia).
    now rewrite Hback.
  - assert (Hq : (12 * y + (m - 1)) / 12 = y
                 /\ (12 * y + (m - 1)) mod 12 + 1 = m).
    { Z.to_euclidean_division_equations. lia. }
    destruct Hq as (-> & ->).
    rewrite (Hyear y m d E) by lia.
    replace (d <=? days_in_month y m) with true
      by (symmetry; apply Z.leb_le; lia).
    now rewrite Hback.
Qed.

Lemma week_start_mono (p p' : Z) :
  p <= p' -> Rrule.week_start p <= Rrule.week_start p'.
Proof.
  intros H. unfold Rrule.week_start, weekday, Rrule.wkst.
  assert (Ho : toordinal p <= toordinal p').
  { unfold toordinal. apply Z.add_le_mono_r. apply Z.div_le_mono; [|assumption].
    reflexivity. }
  revert Ho. generalize (toordinal p) (toordinal p'). intros o o' Ho.
  rewrite !Z.sub_0_r. Z.to_euclidean_division_equations. lia.
Qed.

(** Once the iteration has ended, it has ended for good: no later period
    holds a datetime. *)
Lemma candidate_ended_mono (f : Freq) (dtstart : datetime) (p p' : Z) :
  Rrule.origin f dtstart <= p -> p <= p' ->
  Rrule.candidate_at f dtstart p = Rrule.Stop
  \/ Rrule.candidate_at f dtstart p = Rrule.Fail ->
  Rrule.candidate_at f dtstart p' = Rrule.Stop
  \/ Rrule.candidate_at f dtstart p' = Rrule.Fail.
Proof.
  intros Ho Hp H.
  destruct f; simpl in *;
    try (left;
         destruct (Z.leb_spec DT_END p);
           [|destruct H; discriminate];
         destruct (Z.leb_spec DT_END p'); [reflexivity|lia]).
  - destruct (ord2ymd (toordinal dtstart)) as [[y m] d]. left.
    destruct (Z.ltb_spec MAXYEAR p);
      [|destruct (d <=? days_in_month p m); destruct H; discriminate].
    destruct (Z.ltb_spec MAXYEAR p'); [reflexivity|lia].
  - destruct (ord2ymd (toordinal dtstart)) as [[y m] d]. left.
    destruct (Z.ltb_spec MAXYEAR (p / 12));
      [|destruct (d <=? days_in_month (p / 12) (p mod 12 + 1));
        destruct H; discriminate].
    destruct (Z.ltb_spec MAXYEAR (p' / 12)); [reflexivity|].
    assert (p / 12 <= p' / 12) by (apply Z.div_le_mono; lia). lia.
  - destruct (Z.eqb_spec p dtstart) as [E|E]; [destruct H; discriminate|].
    replace (p' =? dtstart) with false by (symmetry; apply Z.eqb_neq; lia).
    pose proof (week_start_mono p p' Hp) as Hw.
    destruct (Z.ltb_spec MAXORDINAL (Rrule.week_start p)).
    + replace (MAXORDINAL <? Rrule.week_start p') with true
        by (symmetry; apply Z.ltb_lt; lia). now left.
    + destruct (Z.leb_spec DT_END p); [|destruct H; discriminate].
      replace (DT_END <=? p') with true by (symmetry; apply Z.leb_le; lia).
      destruct (MAXORDINAL <? Rrule.week_start p'); auto.
Qed.

(** Later periods hold later datetimes. *)
Lemma candidate_lt (f : Freq) (dtstart : datetime) (p p' : Z) (a a' : datetime) :
  p < p' ->
  Rrule.candidate_at f dtstart p = Rrule.Emit a ->
  Rrule.candidate_at f dtstart p' = Rrule.Emit a' ->
  a < a'.
Proof.
  intros Hp H H'.
  pose proof (tod_bounds dtstart) as Ht.
  destruct f; simpl in *;
    try (destruct (DT_END <=? p); [discriminate|];
         destruct (DT_END <=? p'); [discriminate|];
         injection H as <-; injection H' as <-; assumption);
    try (repeat match type of H with
                | context [if ?c then _ else _] => destruct c
                end;
         repeat match type of H' with
                | context [if ?c then _ else _] => destruct c
                end;
         try discriminate;
         injection H as <-; injection H' as <-; assumption);
    destruct (ord2ymd (toordinal dtstart)) as [[y m] d].
  - destruct (MAXYEAR <? p); [discriminate|].
    destruct (MAXYEAR <? p'); [discriminate|].
    destruct (d <=? days_in_month p m); [|discriminate].
    destruct (d <=? days_in_month p' m); [|discriminate].
    injection H as <-. injection H' as <-.
    unfold at_time_of, ymd2ord.
    pose proof (days_before_month_of_year_lt p p' m Hp).
    unfold US_PER_DAY, US_PER_HOUR, US_PER_MINUTE, US_PER_SECOND in *. nia.
  - destruct (MAXYEAR <? p / 12); [discriminate|].
    destruct (MAXYEAR <? p' / 12); [discriminate|].
    destruct (d <=? days_in_month (p / 12) (p mod 12 + 1)); [|discriminate].
    destruct (d <=? days_in_month (p' / 12) (p' mod 12 + 1)); [|discriminate].
    injection H as <-. injection H' as <-.
    rewrite !at_time_of_index.
    pose proof (days_before_index_lt p p' Hp).
    unfold US_PER_DAY, US_PER_HOUR, US_PER_MINUTE, US_PER_SECOND in *. nia.
Qed.

(** From [pos_end] on, a period holds nothing that is not after [until]. *)
Lemma candidate_beyond_end (f : Freq) (dtstart : datetime)
    (until : option datetime) (p : Z) (a : datetime) :
  dtstart < DT_END ->
  Rrule.pos_end f until <= p ->
  Rrule.candidate_at f dtstart p = Rrule.Emit a ->
  Rrule.after_until until a = true.
Proof.
  intros Hd Hp H. destruct (Rrule.period f) as [per|] eqn:Hf.
  - rewrite (pos_end_fixed _ _ _ Hf) in Hp.
    destruct (Z.lt_ge_cases p DT_END) as [Hin|Hout].
    + rewrite (candidate_fixed_in _ _ _ _ Hf Hin) in H. injection H as <-.
      destruct until as [u|]; [|lia]. simpl. apply Z.ltb_lt. lia.
    + destruct (candidate_fixed_out _ _ dtstart _ Hf Hd Hout) as [E|E];
        rewrite E in H; discriminate.
  - rewrite (candidate_stop_calendar _ _ _ _ Hf Hp) in H. discriminate.
Qed.

(** A frequency of fixed length has a candidate in every period. *)
Lemma candidate_skip_calendar f dtstart pos :
  Rrule.candidate_at f dtstart pos = Rrule.Skip -> Rrule.period f = None.
Proof.
  destruct f; simpl; try reflexivity;
    repeat match goal with
           | |- context [if ?c then _ else _] => destruct c
           end; discriminate.
Qed.

(* ------------------------------------------------------------------ *)
(** ** The periods of a rule *)

Lemma stride_pos f i : 1 <= i -> 1 <= Rrule.stride f i.
Proof.
  intros Hi. unfold Rrule.stride.
  destruct (Rrule.period f) as [per|] eqn:Hp; [|lia].
  pose proof (period_pos _ _ Hp). nia.
Qed.

Lemma iter_count_zero f dtstart step until :
  forall fuel pos,
    yielded (Rrule.iter fuel f dtstart step until (Some 0) pos) = [].
Proof.
  induction fuel as [|fuel IH]; intros pos; simpl; [reflexivity|].
  destruct (Rrule.candidate_at f dtstart pos);
    [reflexivity|reflexivity|apply IH|].
  destruct (Rrule.after_until until res); [reflexivity|].
  destruct (dtstart <=? res); [reflexivity|apply IH].
Qed.

Section Periods.

Variables (f : Freq) (first : datetime) (i : Z).
Hypothesis first_valid : 0 <= first < DT_END.
Hypothesis interval_pos : 1 <= i.

Local Abbreviation step := (Rrule.stride f i).
Local Abbreviation pos k := (Rrule.origin f first + k * Rrule.stride f i).

Lemma period_anchor_0 : period_anchor f first i 0 = Some first.
Proof.
  unfold period_anchor. rewrite Z.mul_0_l, Z.add_0_r.
  now rewrite candidate_origin.
Qed.

Lemma period_anchor_lt k k' a a' :
  k < k' -> period_anchor f first i k = Some a ->
  period_anchor f first i k' = Some a' -> a < a'.
Proof.
  unfold period_anchor. intros Hk H H'.
  pose proof (stride_pos f i interval_pos) as Hs.
  destruct (Rrule.candidate_at f first (Rrule.origin f first + k * _))
    as [| | |c] eqn:E; try discriminate.
  destruct (Rrule.candidate_at f first (Rrule.origin f first + k' * _))
    as [| | |c'] eqn:E'; try discriminate.
  injection H as <-. injection H' as <-.
  eapply candidate_lt; [|exact E|exact E']. nia.
Qed.

Lemma period_anchor_ge_first k a :
  0 <= k -> period_anchor f first i k = Some a -> first <= a.
Proof.
  intros Hk H. destruct (Z.eq_dec k 0) as [->|Hne].
  - rewrite period_anchor_0 in H. injection H as <-. lia.
  - pose proof (period_anchor_lt 0 k first a) as Hlt.
    specialize (Hlt ltac:(lia) period_anchor_0 H). lia.
Qed.

(** The loop over [n] periods none of which ends it. *)
Lemma iter_periods (until : option datetime) :
  forall (n fuel : nat) (count : option Z) (k0 : Z),
    (n <= fuel)%nat -> 0 <= k0 ->
    (forall j a, k0 <= j < k0 + Z.of_nat n ->
                 period_anchor f first i j = Some a ->
                 Rrule.after_until until a = false) ->
    (forall j, k0 <= j < k0 + Z.of_nat n ->
               Rrule.candidate_at f first (pos j) <> Rrule.Stop
               /\ Rrule.candidate_at f first (pos j) <> Rrule.Fail) ->
    match count with
    | Some c =>
        Z.of_nat (List.length (anchors_of_periods f first i k0 n)) <= c
    | None => True
    end ->
    Rrule.iter fuel f first step until count (pos k0)
    = mkGenerated
        (anchors_of_periods f first i k0 n
         ++ yielded
              (Rrule.iter (fuel - n) f first step until
                 (option_map
                    (fun c => c - Z.of_nat
                                    (List.length
                                       (anchors_of_periods f first i k0 n)))
                    count)
                 (pos (k0 + Z.of_nat n))))
        (raised
           (Rrule.iter (fuel - n) f first step until
              (option_map
                 (fun c => c - Z.of_nat
                                 (List.length
                                    (anchors_of_periods f first i k0 n)))
                 count)
              (pos (k0 + Z.of_nat n)))).
Proof.
  induction n as [|n IH]; intros fuel count k0 Hfuel Hk0 Hu Hstop Hc.
  - cbn [anchors_of_periods List.length app]. rewrite Nat.sub_0_r, Z.add_0_r.
    replace (option_map (fun c => c - Z.of_nat 0) count) with count
      by (destruct count; simpl; [rewrite Z.sub_0_r|]; reflexivity).
    now destruct (Rrule.iter fuel f first step until count (pos k0)).
  - destruct fuel as [|fuel]; [lia|].
    assert (Hnext : pos k0 + step = pos (k0 + 1)) by lia.
    replace (k0 + Z.of_nat (S n)) with (k0 + 1 + Z.of_nat n) by lia.
    cbn [Rrule.iter anchors_of_periods Nat.sub] in *.
    destruct (Hstop k0 ltac:(lia)) as (Hstop0 & Hfail0).
    assert (Hpa : period_anchor f first i k0
                  = match Rrule.candidate_at f first (pos k0) with
                    | Rrule.Emit a => Some a
                    | _ => None
                    end) by reflexivity.
    pose proof (Hu k0) as Hu0.
    pose proof (period_anchor_ge_first k0) as Hge0.
    rewrite Hpa in *. clear Hpa.
    assert (IH' : forall count',
               match count' with
               | Some c =>
                   Z.of_nat (List.length
                               (anchors_of_periods f first i (k0 + 1) n)) <= c
               | None => True
               end ->
               Rrule.iter fuel f first step until count' (pos (k0 + 1))
               = mkGenerated
                   (anchors_of_periods f first i (k0 + 1) n
                    ++ yielded
                         (Rrule.iter (fuel - n) f first step until
                            (option_map
                               (fun c => c - Z.of_nat
                                               (List.length
                                                  (anchors_of_periods f first i
                                                     (k0 + 1) n)))
                               count')
                            (pos (k0 + 1 + Z.of_nat n))))
                   (raised
                      (Rrule.iter (fuel - n) f first step until
                         (option_map
                            (fun c => c - Z.of_nat
                                            (List.length
                                               (anchors_of_periods f first i
                                                  (k0 + 1) n)))
                            count')
                         (pos (k0 + 1 + Z.of_nat n))))).
    { intros count' Hc'. apply IH; try lia; try assumption.
      - intros j a Hj. apply Hu. lia.
      - intros j Hj. apply Hstop. lia. }
    destruct (Rrule.candidate_at f first (pos k0)) as [| | |res];
      [congruence|congruence| |].
    + rewrite Hnext. now apply IH'.
    + rewrite (Hu0 res ltac:(lia) eq_refl).
      replace (first <=? res) with true
        by (symmetry; apply Z.leb_le; now apply Hge0).
      destruct count as [c|];
        cbn [Rrule.take_one option_map List.length app] in *.
      * rewrite Nat2Z.inj_succ in *.
        replace (c - 1 <? 0) with false by (symmetry; apply Z.ltb_ge; lia).
        cbv zeta. rewrite Hnext, IH' by lia.
        cbn [option_map app yielded raised].
        replace (c - 1 - Z.of_nat (List.length
                                     (anchors_of_periods f first i (k0 + 1) n)))
          with (c - Z.succ (Z.of_nat (List.length
                                        (anchors_of_periods f first i
                                           (k0 + 1) n)))) by lia.
        reflexivity.
      * cbv zeta. rewrite Hnext, IH' by exact I. reflexivity.
Qed.

Lemma pos_mono k k' : k <= k' -> pos k <= pos k'.
Proof.
  intros H. pose proof (stride_pos f i interval_pos). nia.
Qed.

(** Before a period that holds a datetime the loop has not ended. *)
Lemma period_anchor_not_ended k a j :
  period_anchor f first i k = Some a -> 0 <= j <= k ->
  Rrule.candidate_at f first (pos j) <> Rrule.Stop
  /\ Rrule.candidate_at f first (pos j) <> Rrule.Fail.
Proof.
  intros H Hj.
  assert (Hnot : ~ (Rrule.candidate_at f first (pos j) = Rrule.Stop
                    \/ Rrule.candidate_at f first (pos j) = Rrule.Fail)).
  { intros He.
    apply (candidate_ended_mono _ _ _ (pos k)) in He;
      [|pose proof (pos_mono 0 j ltac:(lia)); lia|apply pos_mono; lia].
    unfold period_anchor in H. destruct He as [He|He]; rewrite He in H;
      discriminate. }
  tauto.
Qed.

Lemma period_anchor_le k k' a a' :
  k <= k' -> period_anchor f first i k = Some a ->
  period_anchor f first i k' = Some a' -> a <= a'.
Proof.
  intros Hk H H'. destruct (Z.eq_dec k k') as [->|Hne].
  - rewrite H in H'. injection H' as <-. lia.
  - pose proof (period_anchor_lt k k' a a'
                  ltac:(lia) H H'). lia.
Qed.

Lemma period_anchor_before_end until k a :
  0 <= k -> period_anchor f first i k = Some a ->
  Rrule.after_until until a = false ->
  k < Rrule.periods_left f step until (Rrule.origin f first).
Proof.
  intros Hk H Hu.
  apply periods_left_spec; [now apply stride_pos|assumption|].
  destruct (Z.lt_ge_cases (Rrule.origin f first + k * step)
              (Rrule.pos_end f until)) as [|Hge]; [assumption|].
  unfold period_anchor in H.
  destruct (Rrule.candidate_at f first (Rrule.origin f first + k * step))
    as [| | |c] eqn:E; try discriminate.
  injection H as ->.
  rewrite (candidate_beyond_end _ _ _ _ _ (proj2 first_valid) Hge E) in Hu.
  discriminate.
Qed.

Lemma anchors_of_periods_length_le k0 n :
  (List.length (anchors_of_periods f first i k0 n) <= n)%nat.
Proof.
  revert k0. induction n as [|n IH]; intros k0; simpl; [lia|].
  specialize (IH (k0 + 1)).
  destruct (period_anchor f first i k0); simpl; lia.
Qed.

Lemma anchors_of_periods_length_fixed per k0 n :
  Rrule.period f = Some per ->
  (forall j, k0 <= j < k0 + Z.of_nat n ->
             Rrule.candidate_at f first (pos j) <> Rrule.Stop
             /\ Rrule.candidate_at f first (pos j) <> Rrule.Fail) ->
  List.length (anchors_of_periods f first i k0 n) = n.
Proof.
  intros Hp. revert k0. induction n as [|n IH]; intros k0 Hs; [reflexivity|].
  cbn [anchors_of_periods].
  specialize (Hs k0 ltac:(lia)) as Hs0.
  unfold period_anchor.
  destruct (Z.lt_ge_cases (pos k0) DT_END) as [Hin|Hout].
  - rewrite (candidate_fixed_in _ _ first _ Hp Hin).
    cbn [List.length]. f_equal. apply IH. intros j Hj. apply Hs. lia.
  - destruct (candidate_fixed_out _ _ first _ Hp (proj2 first_valid) Hout);
      tauto.
Qed.

Lemma in_anchors_of_periods k0 n a :
  In a (anchors_of_periods f first i k0 n)
  <-> exists k, k0 <= k < k0 + Z.of_nat n
                /\ period_anchor f first i k = Some a.
Proof.
  revert k0. induction n as [|n IH]; intros k0.
  - simpl. split; [intros []|intros (k & Hk & _); lia].
  - cbn [anchors_of_periods].
    assert (Hrest : In a (anchors_of_periods f first i (k0 + 1) n)
                    <-> exists k, k0 + 1 <= k < k0 + Z.of_nat (S n)
                                  /\ period_anchor f first i k = Some a).
    { rewrite IH. split; intros (k & Hk & H); exists k; (split; [lia|exact H]). }
    destruct (period_anchor f first i k0) as [a0|] eqn:E.
    + simpl. rewrite Hrest. split.
      * intros [<-|(k & Hk & H)]; [exists k0|exists k]; (split; [lia|assumption]).
      * intros (k & Hk & H). destruct (Z.eq_dec k k0) as [->|Hne].
        -- left. congruence.
        -- right. exists k. split; [lia|assumption].
    + rewrite Hrest. split.
      * intros (k & Hk & H). exists k. split; [lia|assumption].
      * intros (k & Hk & H). destruct (Z.eq_dec k k0) as [->|Hne];
          [congruence|]. exists k. split; [lia|assumption].
Qed.

(** Once [count] is used up, the loop raises only if its next period
    does. *)
Lemma iter_count_zero_raised (until : option datetime) (k : Z) (fuel : nat) :
  0 <= k ->
  period_raises f first i k = false ->
  raised (Rrule.iter fuel f first step until (Some 0) (pos k)) = None.
Proof.
  intros Hk Hnr. destruct fuel as [|fuel]; [reflexivity|].
  cbn [Rrule.iter]. unfold period_raises in Hnr.
  pose proof (period_anchor_ge_first k) as Hge. unfold period_anchor in Hge.
  destruct (Rrule.candidate_at f first (pos k)) as [| | |res] eqn:E;
    [reflexivity|discriminate| |].
  - apply iter_never_fails. intros p Hp.
    apply candidate_fail_weekly in Hp. apply candidate_skip_calendar in E.
    rewrite Hp in E. discriminate.
  - destruct (Rrule.after_until until res); [reflexivity|].
    replace (first <=? res) with true
      by (symmetry; apply Z.leb_le; now apply Hge).
    reflexivity.
Qed.

(** The rule with [count = n] whose n-th anchor lies in period K - 1 and
    is not after [until]: the anchors of the first K periods, and no
    exception unless period K raises. *)
Lemma iter_count_periods (until : option datetime) (n K : Z)
    (last : datetime) (fuel : nat) :
  1 <= K ->
  period_anchor f first i (K - 1) = Some last ->
  Rrule.after_until until last = false ->
  Z.of_nat (List.length (anchors_of_periods f first i 0 (Z.to_nat K))) = n ->
  period_raises f first i K = false ->
  (Rrule.fuel_for f step until (Some n) (Rrule.origin f first) <= fuel)%nat ->
  Rrule.iter fuel f first step until (Some n) (Rrule.origin f first)
  = mkGenerated (anchors_of_periods f first i 0 (Z.to_nat K)) None.
Proof.
  intros HK Hlast Hu Hn Hnr Hfuel.
  assert (Hstop : forall j, 0 <= j < 0 + Z.of_nat (Z.to_nat K) ->
                    Rrule.candidate_at f first (pos j) <> Rrule.Stop
                    /\ Rrule.candidate_at f first (pos j) <> Rrule.Fail).
  { intros j Hj. apply (period_anchor_not_ended (K - 1) last); [assumption|lia]. }
  assert (HKfuel : (Z.to_nat K <= fuel)%nat).
  { pose proof (period_anchor_before_end until (K - 1) last ltac:(lia)
                  Hlast Hu) as Hpl.
    unfold Rrule.fuel_for in Hfuel.
    destruct (Rrule.period f) as [per|] eqn:Hp; [|lia].
    rewrite (anchors_of_periods_length_fixed per 0 _ Hp Hstop) in Hn. lia. }
  replace (Rrule.origin f first) with (pos 0) by lia.
  rewrite (iter_periods until (Z.to_nat K) fuel (Some n) 0 HKfuel
             ltac:(lia)).
  - cbn [option_map]. rewrite Hn, Z.sub_diag, iter_count_zero.
    replace (0 + Z.of_nat (Z.to_nat K)) with K by lia.
    rewrite iter_count_zero_raised by (try lia; assumption).
    now rewrite app_nil_r.
  - intros j a Hj Ha.
    pose proof (period_anchor_le j (K - 1) a last ltac:(lia) Ha Hlast) as Hle.
    destruct until as [U|]; [|reflexivity].
    simpl in *. apply Z.ltb_ge in Hu. apply Z.ltb_ge. lia.
  - exact Hstop.
  - lia.
Qed.

(** The rule with [until = U] and no [count]: the anchors not after [U]. *)
Lemma iter_until_mem (U : datetime) (a : datetime) :
  forall (fuel : nat) (k0 : Z),
    0 <= k0 ->
    (In a (yielded (Rrule.iter fuel f first step (Some U) None (pos k0)))
     <-> exists k, k0 <= k < k0 + Z.of_nat fuel
                   /\ period_anchor f first i k = Some a /\ a <= U).
Proof.
  induction fuel as [|fuel IH]; intros k0 Hk0.
  - simpl. split; [intros []|intros (k & Hk & _); lia].
  - assert (Hnext : pos k0 + step = pos (k0 + 1)) by lia.
    assert (Hpa : period_anchor f first i k0
                  = match Rrule.candidate_at f first (pos k0) with
                    | Rrule.Emit r => Some r
                    | _ => None
                    end) by reflexivity.
    assert (Hrest : In a (yielded (Rrule.iter fuel f first step (Some U) None
                                     (pos (k0 + 1))))
                    <-> exists k, k0 + 1 <= k < k0 + Z.of_nat (S fuel)
                                  /\ period_anchor f first i k = Some a
                                  /\ a <= U).
    { rewrite IH by lia.
      split; intros (k & Hk & H); exists k; (split; [lia|exact H]). }
    assert (Hended : Rrule.candidate_at f first (pos k0) = Rrule.Stop
                     \/ Rrule.candidate_at f first (pos k0) = Rrule.Fail ->
                     ~ exists k, k0 <= k < k0 + Z.of_nat (S fuel)
                                 /\ period_anchor f first i k = Some a
                                 /\ a <= U).
    { intros He (k & Hk & Ha & _).
      destruct (period_anchor_not_ended k a k0 Ha ltac:(lia)). tauto. }
    cbn [Rrule.iter].
    destruct (Rrule.candidate_at f first (pos k0)) as [| | |res] eqn:E.
    + split; [intros []|]. intros H. exfalso. apply Hended; auto.
    + split; [intros []|]. intros H. exfalso. apply Hended; auto.
    + rewrite Hnext, Hrest. split.
      * intros (k & Hk & H). exists k. split; [lia|assumption].
      * intros (k & Hk & Ha & HaU). destruct (Z.eq_dec k k0) as [->|Hne];
          [congruence|]. exists k. split; [lia|auto].
    + pose proof (period_anchor_ge_first k0 res Hk0 Hpa) as Hge.
      cbn [Rrule.after_until].
      destruct (Z.ltb_spec U res) as [Hlt|Hle].
      * split; [intros []|]. intros (k & Hk & Ha & HaU). exfalso.
        pose proof (period_anchor_le k0 k res a ltac:(lia) Hpa Ha). lia.
      * replace (first <=? res) with true by (symmetry; now apply Z.leb_le).
        cbn [Rrule.take_one]. cbv zeta. cbn [yielded]. rewrite Hnext.
        simpl In. rewrite Hrest. split.
        -- intros [<-|(k & Hk & H)]; [exists k0|exists k];
             (split; [lia|auto]).
        -- intros (k & Hk & Ha & HaU).
           destruct (Z.eq_dec k k0) as [->|Hne].
           ++ left. congruence.
           ++ right. exists k. split; [lia|auto].
Qed.

Lemma iter_until_anchors (U : datetime) (a : datetime) (fuel : nat) :
  (Rrule.fuel_for f step (Some U) None (Rrule.origin f first) <= fuel)%nat ->
  (In a (yielded (Rrule.iter fuel f first step (Some U) None
                    (Rrule.origin f first)))
   <-> exists k, 0 <= k /\ period_anchor f first i k = Some a /\ a <= U).
Proof.
  intros Hfuel.
  replace (Rrule.origin f first) with (pos 0) by lia.
  rewrite iter_until_mem by lia. split.
  - intros (k & Hk & H). exists k. split; [lia|assumption].
  - intros (k & Hk & Ha & HaU). exists k. split; [|auto].
    assert (Hu : Rrule.after_until (Some U) a = false)
      by (simpl; apply Z.ltb_ge; lia).
    pose proof (period_anchor_before_end (Some U) k a Hk Ha Hu) as Hpl.
    unfold Rrule.fuel_for in Hfuel.
    destruct (Rrule.period f); lia.
Qed.

(** The loop does not raise when, before every period that raises, a
    period holds a datetime after [until]: the loop returns there. *)
Lemma iter_raised_none (until : option datetime) :
  forall (fuel : nat) (count : option Z) (k0 : Z),
    0 <= k0 ->
    (forall k, k0 <= k -> period_raises f first i k = true ->
               exists j a, k0 <= j < k
                           /\ period_anchor f first i j = Some a
                           /\ Rrule.after_until until a = true) ->
    raised (Rrule.iter fuel f first step until count (pos k0)) = None.
Proof.
  induction fuel as [|fuel IH]; intros count k0 Hk0 Hnr; [reflexivity|].
  assert (Hnext : pos k0 + step = pos (k0 + 1)) by lia.
  assert (Hpa : period_anchor f first i k0
                = match Rrule.candidate_at f first (pos k0) with
                  | Rrule.Emit r => Some r
                  | _ => None
                  end) by reflexivity.
  assert (Hrest : forall count',
             (forall a, period_anchor f first i k0 = Some a ->
                        Rrule.after_until until a = false) ->
             raised (Rrule.iter fuel f first step until count'
                       (pos (k0 + 1))) = None).
  { intros count' H0. apply IH; [lia|]. intros k Hk Hr.
    destruct (Hnr k ltac:(lia) Hr) as (j & a & Hj & Ha & Hau).
    destruct (Z.eq_dec j k0) as [->|Hne].
    - rewrite (H0 a Ha) in Hau. discriminate.
    - exists j, a. split; [lia|auto]. }
  pose proof (Hnr k0 ltac:(lia)) as Hnr0. unfold period_raises in Hnr0.
  cbn [Rrule.iter].
  destruct (Rrule.candidate_at f first (pos k0)) as [| | |res] eqn:E.
  - reflexivity.
  - destruct (Hnr0 eq_refl) as (j & a & Hj & _). lia.
  - rewrite Hnext. apply Hrest. rewrite Hpa. discriminate.
  - destruct (Rrule.after_until until res) eqn:Eu; [reflexivity|].
    assert (H0 : forall a, period_anchor f first i k0 = Some a ->
                   Rrule.after_until until a = false).
    { rewrite Hpa. intros a [= <-]. exact Eu. }
    destruct (first <=? res).
    + destruct (Rrule.take_one count) as [count'|]; [|reflexivity].
      cbv zeta. cbn [raised]. rewrite Hnext. now apply Hrest.
    + rewrite Hnext. now apply Hrest.
Qed.

End Periods.

(* ------------------------------------------------------------------ *)
(** ** [add_occurrences]: the unbounded rule *)

(** C1: when the recurrence parameters hold neither [count] nor [until],
    whatever their frequency, interval and secondary constraints,
    [add_occurrences] succeeds and appends exactly one occurrence, whose
    start is the given [start_time] and whose end is the given [end_time];
    this holds for every implementation of the rule (also one that raises),
    so the rule is not expanded. *)
Theorem add_occurrences_no_bound_single :
  forall (rrule_impl : datetime -> rrule_params -> generated)
         (self : Z) (st et : datetime) (f : option Freq) (i : option Z)
         (by_ : list (string * list Z)) (db : DB),
    add_occurrences rrule_impl self st et (mkRruleParams f i None None by_) db
    = (inr tt, with_new_occurrences db [single_occurrence db self st et])
    /\ start_time (single_occurrence db self st et) = st
    /\ end_time (single_occurrence db self st et) = et
    /\ event (single_occurrence db self st et) = self.
Proof.
  intros. repeat split.
Qed.

(** C9: [count = 0] without [until] is taken for a missing bound (the guard
    tests the truth value of [count]): not zero occurrences but exactly one
    is appended, with the given [start_time] and [end_time], and the rule is
    not consulted. *)
Theorem add_occurrences_count_zero_single :
  forall (rrule_impl : datetime -> rrule_params -> generated)
         (self : Z) (st et : datetime) (f : option Freq) (i : option Z)
         (by_ : list (string * list Z)) (db : DB),
    add_occurrences rrule_impl self st et
      (mkRruleParams f i (Some 0) None by_) db
    = (inr tt, with_new_occurrences db [single_occurrence db self st et])
    /\ List.length
         (occurrences
            (snd (add_occurrences rrule_impl self st et
                    (mkRruleParams f i (Some 0) None by_) db)))
       = S (List.length (occurrences db))
    /\ start_time (single_occurrence db self st et) = st
    /\ end_time (single_occurrence db self st et) = et.
Proof.
  intros. repeat split.
  unfold add_occurrences, occurrence_set_create, insert_occurrence. simpl.
  rewrite length_app. simpl. lia.
Qed.

(* ------------------------------------------------------------------ *)
(** ** [add_occurrences]: the bounded rule *)

Ltac by_evaluation :=
  vm_compute;
  first [ reflexivity | discriminate
        | split; first [reflexivity | discriminate] ].

(** A rule that is not weekly has no period that raises. *)
Ltac not_weekly :=
  let k := fresh "k" in
  let H := fresh "H" in
  intros k _ H; apply period_raises_weekly in H; discriminate.

(** The bounded branch of [add_occurrences], once the rule has yielded
    [evs] and ended without an exception, and no end overflows. *)
Lemma add_occurrences_bounded rr self st et p evs db :
  truthy_count (count p) || truthy_until (until p) = true ->
  rr st (setdefault_freq p) = mkGenerated evs None ->
  (forall ev, In ev evs -> 0 <= ev + (et - st) < DT_END) ->
  exists news,
    add_occurrences rr self st et p db = (inr tt, with_new_occurrences db news)
    /\ map occ_data news
       = map (fun ev => mkUnsaved self ev (ev + (et - st))) evs.
Proof.
  intros Ht Hr Hv.
  destruct (bulk_create_appends
              (map (fun ev => mkUnsaved self ev (ev + (et - st))) evs) db)
    as (news & Hb & Hd).
  exists news. split; [|exact Hd].
  unfold add_occurrences. rewrite Ht. simpl negb. cbv iota.
  unfold bind, lift. rewrite Hr. cbn [yielded raised].
  unfold Datetime.sub. rewrite (build_occurrences_ok self _ evs Hv).
  exact Hb.
Qed.

(** The same, for the starts and the durations. *)
Lemma add_occurrences_bounded_starts rr self st et p evs db :
  truthy_count (count p) || truthy_until (until p) = true ->
  rr st (setdefault_freq p) = mkGenerated evs None ->
  (forall ev, In ev evs -> 0 <= ev + (et - st) < DT_END) ->
  exists news,
    add_occurrences rr self st et p db = (inr tt, with_new_occurrences db news)
    /\ map start_time news = evs
    /\ (forall o, In o news ->
          event o = self /\ end_time o - start_time o = et - st).
Proof.
  intros Ht Hr Hv.
  destruct (add_occurrences_bounded rr self st et p evs db Ht Hr Hv)
    as (news & Hadd & Hdata).
  destruct (map_occ_data_fields _ _ _ _ Hdata) as (Hstarts & Hfld).
  exists news. split; [exact Hadd|]. split; [exact Hstarts|].
  intros o Ho. destruct (Hfld o Ho). split; [assumption|lia].
Qed.

(** The bounded branch when the rule raises after it has yielded [evs],
    none of whose ends overflows: the exception of the rule leaves
    [add_occurrences], and nothing is stored. *)
Lemma add_occurrences_rule_raises rr self st et p evs e db :
  truthy_count (count p) || truthy_until (until p) = true ->
  rr st (setdefault_freq p) = mkGenerated evs (Some e) ->
  (forall ev, In ev evs -> 0 <= ev + (et - st) < DT_END) ->
  add_occurrences rr self st et p db = (inl e, db).
Proof.
  intros Ht Hr Hv.
  unfold add_occurrences. rewrite Ht. simpl negb. cbv iota.
  unfold bind, lift. rewrite Hr. cbn [yielded raised].
  unfold Datetime.sub. rewrite (build_occurrences_ok self _ evs Hv).
  reflexivity.
Qed.

(** X1: whatever the rule yields, a call that raises leaves the tables as
    they were, and a call that returns has appended occurrences of the
    event, each with [end - start = end_time - start_time], and touched
    nothing else: the occurrence set of the event grew at its end and the
    occurrence set of every other event is as it was. *)
Theorem add_occurrences_frame_duration :
  forall (rrule_impl : datetime -> rrule_params -> generated)
         (self : Z) (st et : datetime) (p : rrule_params) (db : DB),
    match add_occurrences rrule_impl self st et p db with
    | (inl _, db') => db' = db
    | (inr _, db') =>
        exists news,
          db' = with_new_occurrences db news
          /\ (forall o, In o news ->
                event o = self
                /\ end_time o - start_time o = et - st)
          /\ occurrence_set db' self = occurrence_set db self ++ news
          /\ (forall other, other <> self ->
                occurrence_set db' other = occurrence_set db other)
    end.
Proof.
  intros rr self st et p db.
  assert (Hsets : forall news,
             (forall o, In o news -> event o = self
                        /\ end_time o - start_time o = et - st) ->
             occurrence_set (with_new_occurrences db news) self
             = occurrence_set db self ++ news
             /\ (forall other, other <> self ->
                   occurrence_set (with_new_occurrences db news) other
                   = occurrence_set db other)).
  { intros news Hnews. unfold occurrence_set, with_new_occurrences. simpl.
    split.
    - rewrite filter_app. f_equal. apply forallb_filter_id.
      apply forallb_forall. intros o Ho. apply Z.eqb_eq. now apply Hnews.
    - intros other Hneq. rewrite filter_app.
      rewrite (filter_nil_of_false _ news); [apply app_nil_r|].
      intros o Ho. destruct (Hnews o Ho) as (He & _).
      apply Z.eqb_neq. congruence. }
  unfold add_occurrences.
  destruct (negb _).
  - assert (Hn : forall o, In o [single_occurrence db self st et] ->
                   event o = self /\ end_time o - start_time o = et - st).
    { intros o [<-|[]]. simpl. auto. }
    exists [single_occurrence db self st et].
    split; [reflexivity|]. split; [exact Hn|]. now apply Hsets.
  - unfold bind, lift.
    destruct (rr st (setdefault_freq p)) as [evs r]. cbn [yielded raised].
    destruct (build_occurrences self (Datetime.sub et st) evs)
      as [e|occs] eqn:Eb; [reflexivity|].
    destruct r as [e|]; [reflexivity|].
    destruct (bulk_create_appends occs db) as (news & Hb & Hd).
    rewrite Hb.
    assert (Hn : forall o, In o news ->
                   event o = self /\ end_time o - start_time o = et - st).
    { intros o Ho. apply build_occurrences_inv in Eb.
      destruct Eb as (_ & Hf).
      destruct (Hf _ (occ_data_fields _ _ _ Hd Ho)) as (H1 & H2).
      simpl in H1, H2. unfold Datetime.sub in H2. split; [assumption|lia]. }
    exists news. split; [reflexivity|]. split; [exact Hn|]. now apply Hsets.
Qed.

Lemma replace_microsecond_0_valid (st : datetime) :
  0 <= st < DT_END -> 0 <= replace_microsecond_0 st < DT_END.
Proof.
  intros H. rewrite replace_microsecond_0_eq.
  unfold DT_END, MAXORDINAL, US_PER_DAY, US_PER_HOUR, US_PER_MINUTE,
    US_PER_SECOND in *.
  Z.to_euclidean_division_equations. lia.
Qed.

(** The anchors of a frequency of fixed length. *)
Lemma period_anchor_fixed (f : Freq) (per : Z) (first : datetime) (i k : Z) :
  Rrule.period f = Some per -> first < DT_END ->
  period_anchor f first i k
  = if DT_END <=? first + k * (i * per) then None
    else Some (first + k * (i * per)).
Proof.
  intros Hp Hd. unfold period_anchor, Rrule.stride. rewrite Hp.
  assert (Ho : Rrule.origin f first = first).
  { destruct f; simpl in Hp; try discriminate; reflexivity. }
  rewrite Ho.
  destruct (Z.leb_spec DT_END (first + k * (i * per))) as [Hout|Hin].
  - destruct (candidate_fixed_out _ _ first _ Hp Hd Hout) as [E|E];
      now rewrite E.
  - now rewrite (candidate_fixed_in _ _ first _ Hp Hin).
Qed.

Lemma period_anchor_fixed_inv (f : Freq) (per : Z) (first : datetime)
    (i k : Z) (a : datetime) :
  Rrule.period f = Some per ->
  period_anchor f first i k = Some a -> a = first + k * (i * per).
Proof.
  intros Hp. unfold period_anchor, Rrule.stride. rewrite Hp.
  assert (Ho : Rrule.origin f first = first).
  { destruct f; simpl in Hp; try discriminate; reflexivity. }
  rewrite Ho.
  destruct f; simpl in Hp; try discriminate; simpl;
    repeat match goal with
           | |- context [if ?c then _ else _] => destruct c
           end; intros H; try discriminate; now injection H as <-.
Qed.

(** The anchors of a monthly rule: the day of the month and the time of
    day of the start, in every [i]-th month that has such a day. *)
Lemma period_anchor_monthly (first : datetime) (i k : Z) :
  period_anchor MONTHLY first i k
  = let '(y, m, d) := ord2ymd (toordinal first) in
    let idx := 12 * y + (m - 1) + k * i in
    if MAXYEAR <? idx / 12 then None
    else if d <=? days_in_month (idx / 12) (idx mod 12 + 1)
         then Some (at_time_of (idx / 12) (idx mod 12 + 1) d first)
         else None.
Proof.
  unfold period_anchor, Rrule.candidate_at, Rrule.origin, Rrule.stride.
  cbn [Rrule.period].
  destruct (ord2ymd (toordinal first)) as [[y m] d]. cbv zeta.
  destruct (MAXYEAR <? _); [reflexivity|].
  now destruct (d <=? _).
Qed.

(** The anchors of a yearly rule: the month, the day and the time of day of
    the start, in every [i]-th year that has such a day. *)
Lemma period_anchor_yearly (first : datetime) (i k : Z) :
  period_anchor YEARLY first i k
  = let '(y, m, d) := ord2ymd (toordinal first) in
    if MAXYEAR <? y + k * i then None
    else if d <=? days_in_month (y + k * i) m
         then Some (at_time_of (y + k * i) m d first)
         else None.
Proof.
  unfold period_anchor, Rrule.candidate_at, Rrule.origin, Rrule.stride.
  cbn [Rrule.period].
  destruct (ord2ymd (toordinal first)) as [[y m] d].
  destruct (MAXYEAR <? _); [reflexivity|].
  now destruct (d <=? _).
Qed.

(** For a frequency of fixed length, the anchors of the first [n] periods
    are an arithmetic progression. *)
Lemma anchors_of_periods_fixed (f : Freq) (per : Z) (first : datetime)
    (i : Z) (n : nat) :
  Rrule.period f = Some per -> first < DT_END -> 0 <= i * per ->
  forall k0, 0 <= k0 ->
    first + (k0 + Z.of_nat n - 1) * (i * per) < DT_END ->
    anchors_of_periods f first i k0 n
    = anchors_from (first + k0 * (i * per)) (i * per) n.
Proof.
  intros Hp Hd Hs. induction n as [|n IH]; intros k0 Hk0 Hlast; [reflexivity|].
  cbn [anchors_of_periods]. rewrite anchors_from_S.
  rewrite (period_anchor_fixed _ _ _ _ _ Hp Hd).
  destruct (Z.leb_spec DT_END (first + k0 * (i * per))) as [Hge|Hlt]; [nia|].
  f_equal. rewrite IH by nia. f_equal. lia.
Qed.




(** X7: for a rule of fixed period (weekly, daily, hourly,
    minutely, secondly; daily when no frequency is given) without secondary
    constraints, with [interval >= 1] and [count = n >= 1], when [until], if
    given too, is not before the n-th anchor, anchors and ends stay
    datetimes, and the period after the n-th anchor is not one in which the
    iteration raises (for a weekly rule: the week that begins in the year
    9999 and holds the weekday of the start in the year 10000):
    [add_occurrences] succeeds and appends exactly [n]
    occurrences of the event; their starts are, in order, the start with its
    microseconds zeroed plus k times interval times period for k = 0 .. n-1;
    each has [end - start = end_time - start_time]; and the first start is
    [start_time] itself when that has no microseconds. *)
Theorem add_occurrences_count_fixed_period :
  forall (self : Z) (st et : datetime) (f : option Freq) (i : option Z)
         (n : Z) (u : option datetime) (per : Z) (db : DB),
    let first := replace_microsecond_0 st in
    let step := interval_or_1 i * per in
    let last := first + (n - 1) * step in
    Rrule.period (freq_or_daily f) = Some per ->
    1 <= interval_or_1 i ->
    1 <= n ->
    last < DT_END ->
    period_raises (freq_or_daily f) first (interval_or_1 i) n = false ->
    (forall U, u = Some U -> last <= U) ->
    0 <= first + (et - st) ->
    last + (et - st) < DT_END ->
    exists news,
      add_occurrences Rrule.rrule self st et (mkParams f i (Some n) u) db
      = (inr tt, with_new_occurrences db news)
      /\ List.length news = Z.to_nat n
      /\ map start_time news = anchors_from first step (Z.to_nat n)
      /\ (forall o, In o news ->
            event o = self /\ end_time o - start_time o = et - st)
      /\ (microsecond st = 0 -> hd_error (map start_time news) = Some st).
Proof.
  intros self st et f i n u per db first step last
    Hper Hi Hn Hlast Hnr Hu Hlo Hhi.
  pose proof (period_pos _ _ Hper) as Hp1.
  assert (Hstep : 1 <= step) by (unfold step; nia).
  assert (Hd : first < DT_END) by (unfold last in Hlast; nia).
  set (p := mkParams f i (Some n) u).
  pose proof (rrule_fixed_closed st p per eq_refl Hper Hi Hd) as Hr.
  cbv zeta in Hr. simpl interval in Hr. simpl until in Hr. simpl count in Hr.
  simpl freq in Hr. fold first step in Hr.
  assert (Hfuel : Rrule.fuel_for (freq_or_daily f) step u (Some n) first
                  = Z.to_nat n).
  { unfold Rrule.fuel_for. rewrite Hper. f_equal.
    assert (n - 1 < Rrule.periods_left (freq_or_daily f) step u first); [|lia].
    apply periods_left_spec; [lia|lia|].
    rewrite (pos_end_fixed _ _ _ Hper). fold last.
    destruct u as [U|]; [specialize (Hu U eq_refl)|]; lia. }
  rewrite Hfuel in Hr.
  assert (Hnone : match Rrule.candidate_at (freq_or_daily f) first
                          (first + Z.of_nat (Z.to_nat n) * step) with
                  | Rrule.Fail => Some ValueError
                  | _ => None
                  end = None).
  { unfold period_raises, Rrule.stride in Hnr. rewrite Hper in Hnr.
    assert (Ho : Rrule.origin (freq_or_daily f) first = first).
    { destruct (freq_or_daily f); simpl in Hper; try discriminate;
        reflexivity. }
    rewrite Ho in Hnr. fold step in Hnr. rewrite Z2Nat.id by lia.
    destruct (Rrule.candidate_at _ _ _); try reflexivity; discriminate. }
  rewrite Hnone in Hr.
  destruct (add_occurrences_bounded Rrule.rrule self st et p
              (anchors_from first step (Z.to_nat n)) db)
    as (news & Hadd & Hdata); [|exact Hr| |].
  { simpl. replace (n =? 0) with false by (symmetry; apply Z.eqb_neq; lia).
    reflexivity. }
  { intros ev Hin. apply in_anchors_from in Hin. destruct Hin as (k & Hk & ->).
    unfold last in *. nia. }
  destruct (map_occ_data_fields _ _ _ _ Hdata) as (Hst & Hfld).
  exists news. split; [exact Hadd|]. split.
  { rewrite <- (length_map start_time), Hst. apply length_anchors_from. }
  split; [exact Hst|]. split.
  { intros o Ho. destruct (Hfld o Ho). split; [assumption|lia]. }
  intros Hus. rewrite Hst.
  destruct (Z.to_nat n) as [|m] eqn:En; [lia|].
  rewrite anchors_from_S. simpl. unfold first.
  now rewrite replace_microsecond_0_whole.
Qed.

(** The count theorem at the weekly practice: three occurrences from
    2024-01-01 18:00, one week apart. *)
Lemma add_occurrences_count_fixed_period_witness :
  exists news,
    add_occurrences Rrule.rrule 1 (jan_2024 1 18 0) (jan_2024 1 19 30)
      (mkParams (Some WEEKLY) None (Some 3) None) empty_db
    = (inr tt, with_new_occurrences empty_db news)
    /\ List.length news = Z.to_nat 3
    /\ map start_time news
       = anchors_from (replace_microsecond_0 (jan_2024 1 18 0))
           (interval_or_1 None * (7 * US_PER_DAY)) (Z.to_nat 3)
    /\ (forall o, In o news ->
          event o = 1
          /\ end_time o - start_time o = jan_2024 1 19 30 - jan_2024 1 18 0)
    /\ (microsecond (jan_2024 1 18 0) = 0 ->
        hd_error (map start_time news) = Some (jan_2024 1 18 0)).
Proof.
  apply (add_occurrences_count_fixed_period 1 (jan_2024 1 18 0) (jan_2024 1 19 30)
           (Some WEEKLY) None 3 None (7 * US_PER_DAY) empty_db);
    by_evaluation.
Defined.





(** X8: for a rule of fixed period (weekly, daily, also by
    default, hourly, minutely, secondly) without secondary constraints, with
    [interval >= 1], with [until = U] and WITHOUT [count], whose ends stay
    datetimes, and which has an anchor after [U] before any period in which
    the iteration raises (only a weekly rule has such a period: the week
    that begins in the year 9999 and holds the weekday of the start in the
    year 10000): [add_occurrences] succeeds, every occurrence it appends
    starts at an anchor of the rule (the start with its microseconds zeroed
    plus a multiple of interval times period) that is [<= U], and every
    anchor of the rule that is [<= U] is the start of an appended
    occurrence. *)
Theorem add_occurrences_until_fixed_period :
  forall (self : Z) (st et : datetime) (f : option Freq) (i : option Z)
         (U : datetime) (per : Z) (db : DB),
    let first := replace_microsecond_0 st in
    let step := interval_or_1 i * per in
    Rrule.period (freq_or_daily f) = Some per ->
    1 <= interval_or_1 i ->
    first < DT_END ->
    U < DT_END ->
    (forall k, 0 <= k ->
               period_raises (freq_or_daily f) first (interval_or_1 i) k
               = true ->
               exists j, 0 <= j < k /\ U < first + j * step) ->
    0 <= first + (et - st) ->
    U + (et - st) < DT_END ->
    exists news,
      add_occurrences Rrule.rrule self st et (mkParams f i None (Some U)) db
      = (inr tt, with_new_occurrences db news)
      /\ (forall o, In o news ->
            start_time o <= U
            /\ exists k, 0 <= k /\ start_time o = first + k * step)
      /\ (forall k, 0 <= k -> first + k * step <= U ->
            exists o, In o news /\ start_time o = first + k * step).
Proof.
  intros self st et f i U per db first step Hper Hi Hd HU Hnr Hlo Hhi.
  pose proof (period_pos _ _ Hper) as Hp1.
  assert (Hstep : 1 <= step) by (unfold step; nia).
  set (p := mkParams f i None (Some U)).
  pose proof (rrule_fixed_closed st p per eq_refl Hper Hi Hd) as Hr.
  cbv zeta in Hr. simpl interval in Hr. simpl until in Hr. simpl count in Hr.
  simpl freq in Hr. fold first step in Hr.
  set (F := Rrule.fuel_for (freq_or_daily f) step (Some U) None first) in Hr.
  assert (HF : forall k, 0 <= k ->
                 (k < Z.of_nat F <-> first + k * step <= U)).
  { intros k Hk. unfold F, Rrule.fuel_for. rewrite Hper.
    pose proof (periods_left_nonneg (freq_or_daily f) step (Some U) first).
    rewrite Z2Nat.id by assumption.
    rewrite (periods_left_spec _ _ _ _ _ Hstep Hk).
    rewrite (pos_end_fixed _ _ _ Hper). lia. }
  assert (Hnone : match Rrule.candidate_at (freq_or_daily f) first
                          (first + Z.of_nat F * step) with
                  | Rrule.Fail => Some ValueError
                  | _ => None
                  end = None).
  { destruct (Rrule.candidate_at _ _ _) eqn:E; try reflexivity. exfalso.
    destruct (Hnr (Z.of_nat F) ltac:(lia)) as (j & Hj & HjU).
    - unfold period_raises, Rrule.stride. rewrite Hper.
      assert (Ho : Rrule.origin (freq_or_daily f) first = first).
      { destruct (freq_or_daily f); simpl in Hper; try discriminate;
          reflexivity. }
      rewrite Ho. fold step. now rewrite E.
    - assert (first + j * step <= U) by (apply HF; lia). lia. }
  rewrite Hnone in Hr.
  destruct (add_occurrences_bounded Rrule.rrule self st et p
              (anchors_from first step F) db)
    as (news & Hadd & Hdata); [reflexivity|exact Hr| |].
  { intros ev Hin. apply in_anchors_from in Hin. destruct Hin as (k & Hk & ->).
    assert (first + k * step <= U) by (apply HF; lia). nia. }
  destruct (map_occ_data_fields _ _ _ _ Hdata) as (Hst & Hfld).
  exists news. split; [exact Hadd|]. split.
  - intros o Ho.
    assert (Hin : In (start_time o) (anchors_from first step F)).
    { rewrite <- Hst. now apply in_map. }
    apply in_anchors_from in Hin. destruct Hin as (k & Hk & Hk').
    split; [rewrite Hk'; apply HF; lia|].
    exists k. split; [lia|assumption].
  - intros k Hk HkU.
    assert (Hin : In (first + k * step) (map start_time news)).
    { rewrite Hst. apply in_anchors_from. exists k. split; [|reflexivity].
      split; [assumption|]. now apply HF. }
    apply in_map_iff in Hin. destruct Hin as (o & Ho & Hin). now exists o.
Qed.

(** The until theorem at a rule of every second day, until 2024-01-06. *)
Lemma add_occurrences_until_fixed_period_witness :
  exists news,
    add_occurrences Rrule.rrule 1 (jan_2024 1 18 0) (jan_2024 1 19 30)
      (mkParams (Some DAILY) (Some 2) None (Some (jan_2024 6 0 0))) empty_db
    = (inr tt, with_new_occurrences empty_db news)
    /\ (forall o, In o news ->
          start_time o <= jan_2024 6 0 0
          /\ exists k, 0 <= k
               /\ start_time o
                  = replace_microsecond_0 (jan_2024 1 18 0)
                    + k * (interval_or_1 (Some 2) * US_PER_DAY))
    /\ (forall k, 0 <= k ->
          replace_microsecond_0 (jan_2024 1 18 0)
          + k * (interval_or_1 (Some 2) * US_PER_DAY) <= jan_2024 6 0 0 ->
          exists o, In o news
            /\ start_time o
               = replace_microsecond_0 (jan_2024 1 18 0)
                 + k * (interval_or_1 (Some 2) * US_PER_DAY)).
Proof.
  apply (add_occurrences_until_fixed_period 1 (jan_2024 1 18 0) (jan_2024 1 19 30)
           (Some DAILY) (Some 2) (jan_2024 6 0 0) US_PER_DAY empty_db);
    first [not_weekly | by_evaluation].
Defined.


(** A period of a weekly rule that raises lies past the last datetime, in a
    week that begins before it: the weekday of the start is a Saturday or a
    Sunday. *)
Lemma period_raises_weekend (first : datetime) (i k : Z) :
  period_raises WEEKLY first i k = true ->
  DT_END <= first + k * (i * (7 * US_PER_DAY)) /\ 5 <= weekday first.
Proof.
  unfold period_raises, Rrule.stride. cbn [Rrule.period Rrule.origin].
  set (pos := first + k * (i * (7 * US_PER_DAY))).
  cbn [Rrule.candidate_at].
  destruct (pos =? first); [discriminate|].
  destruct (Z.ltb_spec MAXORDINAL (Rrule.week_start pos)) as [|Hw];
    [discriminate|].
  destruct (Z.leb_spec DT_END pos) as [Hend|]; [|discriminate].
  intros _. split; [assumption|].
  assert (Hord : toordinal pos = toordinal first + 7 * (k * i)).
  { unfold pos, toordinal.
    replace (first + k * (i * (7 * US_PER_DAY)))
      with (first + (7 * (k * i)) * US_PER_DAY) by ring.
    rewrite Z.div_add by (unfold US_PER_DAY, US_PER_HOUR, US_PER_MINUTE,
                            US_PER_SECOND; lia).
    lia. }
  assert (Hpast : MAXORDINAL < toordinal pos).
  { unfold toordinal, DT_END in *.
    assert (MAXORDINAL <= pos / US_PER_DAY); [|lia].
    apply Z.div_le_lower_bound;
      [unfold US_PER_DAY, US_PER_HOUR, US_PER_MINUTE, US_PER_SECOND; lia|lia]. }
  unfold Rrule.week_start, Rrule.wkst, weekday in *.
  rewrite Hord in *. revert Hw Hpast.
  generalize (toordinal first) (k * i). intros o m.
  unfold MAXORDINAL. rewrite !Z.sub_0_r.
  intros Hw Hpast. Z.to_euclidean_division_equations. lia.
Qed.

(** X24: a weekly rule without secondary constraints, with [interval >= 1]
    and [count = n >= 1], whose n-th anchor is a datetime, as are the ends,
    and whose next period is one in which the iteration raises: the start
    is on a Saturday or a Sunday, and [add_occurrences] raises [ValueError]
    and stores nothing, though the rule has [n] anchors. *)
Theorem add_occurrences_weekly_past_the_end :
  forall (self : Z) (st et : datetime) (i : option Z) (n : Z)
         (u : option datetime) (db : DB),
    let first := replace_microsecond_0 st in
    let step := interval_or_1 i * (7 * US_PER_DAY) in
    let last := first + (n - 1) * step in
    1 <= interval_or_1 i ->
    1 <= n ->
    last < DT_END ->
    period_raises WEEKLY first (interval_or_1 i) n = true ->
    (forall U, u = Some U -> last <= U) ->
    0 <= first + (et - st) ->
    last + (et - st) < DT_END ->
    add_occurrences Rrule.rrule self st et
      (mkParams (Some WEEKLY) i (Some n) u) db
    = (inl ValueError, db)
    /\ 5 <= weekday first.
Proof.
  intros self st et i n u db first step last Hi Hn Hlast Hr Hu Hlo Hhi.
  split; [|now apply (period_raises_weekend first (interval_or_1 i) n)].
  assert (Hstep : 1 <= step)
    by (unfold step, US_PER_DAY, US_PER_HOUR, US_PER_MINUTE, US_PER_SECOND;
        lia).
  assert (Hd : first < DT_END) by (unfold last in Hlast; nia).
  set (p := mkParams (Some WEEKLY) i (Some n) u).
  pose proof (rrule_fixed_closed st p (7 * US_PER_DAY) eq_refl eq_refl Hi Hd)
    as Hg.
  cbv zeta in Hg. simpl interval in Hg. simpl until in Hg.
  simpl count in Hg. simpl freq in Hg. cbn [freq_or_daily] in Hg.
  fold first step in Hg.
  assert (Hfuel : Rrule.fuel_for WEEKLY step u (Some n) first = Z.to_nat n).
  { unfold Rrule.fuel_for. cbn [Rrule.period]. f_equal.
    assert (n - 1 < Rrule.periods_left WEEKLY step u first); [|lia].
    apply periods_left_spec; [lia|lia|].
    rewrite (pos_end_fixed WEEKLY (7 * US_PER_DAY) _ eq_refl). fold last.
    destruct u as [U|]; [specialize (Hu U eq_refl)|]; lia. }
  rewrite Hfuel, Z2Nat.id in Hg by lia.
  unfold period_raises, Rrule.stride in Hr.
  cbn [Rrule.period Rrule.origin] in Hr. fold step in Hr.
  destruct (Rrule.candidate_at WEEKLY first (first + n * step));
    try discriminate.
  apply (add_occurrences_rule_raises Rrule.rrule self st et p
           (anchors_from first step (Z.to_nat n)) ValueError db);
    [|exact Hg|].
  - simpl. replace (n =? 0) with false by (symmetry; apply Z.eqb_neq; lia).
    reflexivity.
  - intros ev Hin. apply in_anchors_from in Hin. destruct Hin as (k & Hk & ->).
    unfold last in *. nia.
Qed.

(** One occurrence asked for, on Saturday 9999-12-25: the rule looks at the
    week of Monday 9999-12-27, whose Saturday is in the year 10000. *)
Lemma add_occurrences_weekly_past_the_end_witness :
  add_occurrences Rrule.rrule 1
    (datetime_of 9999 12 25 10 0 0 0) (datetime_of 9999 12 25 11 0 0 0)
    (mkParams (Some WEEKLY) None (Some 1) None) empty_db
  = (inl ValueError, empty_db)
  /\ 5 <= weekday (replace_microsecond_0 (datetime_of 9999 12 25 10 0 0 0)).
Proof.
  apply (add_occurrences_weekly_past_the_end 1
           (datetime_of 9999 12 25 10 0 0 0) (datetime_of 9999 12 25 11 0 0 0)
           None 1 None empty_db);
    first [ by_evaluation | intros U H; discriminate ].
Defined.



(* ------------------------------------------------------------------ *)
(** ** Ordering of querysets *)

Lemma occ_leb_le a b : occ_leb a b = true <-> occ_le a b.
Proof.
  unfold occ_leb, occ_le.
  rewrite orb_true_iff, andb_true_iff, Z.ltb_lt, Z.eqb_eq, Z.leb_le. tauto.
Qed.

Lemma occ_le_refl a : occ_le a a.
Proof. unfold occ_le. lia. Qed.

Lemma occ_le_trans a b c : occ_le a b -> occ_le b c -> occ_le a c.
Proof. unfold occ_le. lia. Qed.

Lemma occ_le_total a b : occ_leb a b = false -> occ_le b a.
Proof.
  intros H. destruct (occ_leb a b) eqn:E; [discriminate|].
  unfold occ_leb in E. unfold occ_le.
  apply orb_false_iff in E. destruct E as (E1 & E2).
  apply Z.ltb_ge in E1. apply andb_false_iff in E2.
  destruct E2 as [E2|E2]; [apply Z.eqb_neq in E2|apply Z.leb_gt in E2]; lia.
Qed.

Lemma insert_ordered_perm o l : Permutation (insert_ordered o l) (o :: l).
Proof.
  induction l as [|x l IH]; simpl; [reflexivity|].
  destruct (occ_leb o x); [reflexivity|].
  rewrite IH. apply perm_swap.
Qed.

Lemma order_by_perm qs : Permutation (order_by_start_time_end_time qs) qs.
Proof.
  induction qs as [|o qs IH]; simpl; [reflexivity|].
  rewrite insert_ordered_perm. now constructor.
Qed.

Lemma fetch_perm ord qs : Permutation (fetch ord qs) qs.
Proof. destruct ord; [reflexivity|apply order_by_perm]. Qed.

Lemma fetch_In ord qs o : In o (fetch ord qs) <-> In o qs.
Proof.
  split; apply Permutation_in; [|symmetry]; apply fetch_perm.
Qed.

Lemma insert_ordered_sorted o l :
  StronglySorted occ_le l -> StronglySorted occ_le (insert_ordered o l).
Proof.
  induction 1 as [|x l Hs IH Hall]; simpl.
  - constructor; constructor.
  - destruct (occ_leb o x) eqn:E.
    + apply occ_leb_le in E. constructor; [now constructor|].
      constructor; [assumption|].
      eapply Forall_impl; [|exact Hall]. intros y Hy.
      eapply occ_le_trans; eassumption.
    + apply occ_le_total in E. constructor; [assumption|].
      eapply Permutation_Forall.
      * symmetry. apply insert_ordered_perm.
      * now constructor.
Qed.

Lemma fetch_sorted qs :
  StronglySorted occ_le (fetch start_time_end_time qs).
Proof.
  induction qs as [|o qs IH]; simpl; [constructor|].
  now apply insert_ordered_sorted.
Qed.

Lemma fetch_head_least qs first rest :
  fetch start_time_end_time qs = first :: rest ->
  In first qs /\ forall o, In o qs -> occ_le first o.
Proof.
  intros H. pose proof (fetch_sorted qs) as Hs. rewrite H in Hs.
  split.
  - apply (fetch_In start_time_end_time). rewrite H. now left.
  - intros o Ho. apply (fetch_In start_time_end_time) in Ho. rewrite H in Ho.
    destruct Ho as [<-|Ho]; [apply occ_le_refl|].
    apply StronglySorted_inv in Hs. destruct Hs as (_ & Hall).
    rewrite Forall_forall in Hall. auto.
Qed.

(* ------------------------------------------------------------------ *)
(** ** [next_occurrence] *)

Lemma upcoming_In db now self o :
  In o (upcoming_occurrences db now self)
  <-> In o (occurrences db) /\ event o = self /\ now <= start_time o.
Proof.
  unfold upcoming_occurrences, occurrence_set.
  rewrite !filter_In, Z.eqb_eq, Z.leb_le. tauto.
Qed.

(** X9: whatever the ordering, [next_occurrence] is [None] exactly when no
    occurrence of the event starts at or after the current time, and an
    occurrence it returns is one of those. *)
Lemma next_occurrence_upcoming ord db now self :
  (next_occurrence ord db now self = None
   <-> forall o, In o (occurrences db) -> event o = self ->
                 start_time o < now)
  /\ (forall first, next_occurrence ord db now self = Some first ->
        In first (occurrences db) /\ event first = self
        /\ now <= start_time first).
Proof.
  unfold next_occurrence.
  destruct (fetch ord (upcoming_occurrences db now self)) as [|x rest] eqn:E.
  - split; [|discriminate]. split; [|reflexivity]. intros _ o Hi He.
    destruct (Z.lt_ge_cases (start_time o) now) as [Hlt|Hge]; [assumption|].
    assert (Hin : In o (fetch ord (upcoming_occurrences db now self))).
    { apply fetch_In, upcoming_In. auto. }
    rewrite E in Hin. destruct Hin.
  - assert (Hx : In x (upcoming_occurrences db now self)).
    { apply (fetch_In ord). rewrite E. now left. }
    apply upcoming_In in Hx. destruct Hx as (Hi & He & Hn).
    split.
    + split; [discriminate|]. intros H. specialize (H x Hi He). lia.
    + intros first [= <-]. auto.
Qed.

(** X2: with the ordering of [OccurrenceBase.Meta], [next_occurrence] returns
    [None] when no occurrence of the event starts at or after the current
    time, and otherwise an occurrence of the event that starts at or after
    the current time and is least in the (start_time, end_time) order among
    those. *)
Lemma next_occurrence_least_when_ordered :
  forall (db : DB) (now : datetime) (self : Z),
    ((forall o, In o (occurrences db) -> event o = self ->
                start_time o < now) ->
     next_occurrence OccurrenceBase_Meta_ordering db now self = None)
    /\ ((exists o, In o (occurrences db) /\ event o = self
                   /\ now <= start_time o) ->
        exists first,
          next_occurrence OccurrenceBase_Meta_ordering db now self
          = Some first
          /\ In first (occurrences db) /\ event first = self
          /\ now <= start_time first
          /\ forall o, In o (occurrences db) -> event o = self ->
                       now <= start_time o -> occ_le first o).
Proof.
  intros db now self. unfold next_occurrence, OccurrenceBase_Meta_ordering.
  split.
  - intros Hnone.
    destruct (fetch _ (upcoming_occurrences db now self)) as [|x rest] eqn:E;
      [reflexivity|].
    apply fetch_head_least in E. destruct E as (Hin & _).
    apply upcoming_In in Hin. destruct Hin as (Hi & He & Hn).
    specialize (Hnone x Hi He). lia.
  - intros (o & Hi & He & Hn).
    destruct (fetch _ (upcoming_occurrences db now self)) as [|x rest] eqn:E.
    + assert (Hin : In o (fetch start_time_end_time
                            (upcoming_occurrences db now self))).
      { apply fetch_In, upcoming_In. auto. }
      rewrite E in Hin. destruct Hin.
    + apply fetch_head_least in E. destruct E as (Hin & Hleast).
      apply upcoming_In in Hin. destruct Hin as (Hi' & He' & Hn').
      exists x. repeat split; try assumption.
      intros o' Ho' He'' Hn''. apply Hleast, upcoming_In. auto.
Qed.

(** C10 (the code at the failing input): event 1 has an occurrence on
    2024-01-08, stored first, and one on 2024-01-01, stored second; on
    2023-12-31 both are upcoming.  With the occurrence model of [models.py],
    whose Meta has no ordering, [next_occurrence] returns the row stored
    first, the occurrence of 2024-01-08, which is not the least upcoming
    one; under the ordering of [OccurrenceBase.Meta] it would return the
    occurrence of 2024-01-01. *)
Theorem next_occurrence_not_least_without_ordering :
  later_then_earlier_db
  = mkDB [] []
      [mkOccurrence 1 1 (jan_2024 8 18 0) (jan_2024 8 19 30);
       mkOccurrence 2 1 (jan_2024 1 18 0) (jan_2024 1 19 30)]
  /\ next_occurrence Occurrence_Meta_ordering later_then_earlier_db
       (datetime_of 2023 12 31 0 0 0 0) 1
     = Some (mkOccurrence 1 1 (jan_2024 8 18 0) (jan_2024 8 19 30))
  /\ next_occurrence OccurrenceBase_Meta_ordering later_then_earlier_db
       (datetime_of 2023 12 31 0 0 0 0) 1
     = Some (mkOccurrence 2 1 (jan_2024 1 18 0) (jan_2024 1 19 30)).
Proof. repeat split; vm_compute; reflexivity. Qed.

(* ------------------------------------------------------------------ *)
(** ** [daily_occurrences] *)

Lemma day_filter_overlaps ws we o :
  day_filter ws we o = true <-> overlaps o ws we.
Proof.
  unfold day_filter, overlaps.
  rewrite !orb_true_iff, !andb_true_iff, !Z.leb_le, !Z.ltb_lt. tauto.
Qed.

(** C4: for every day and all tables, the rows [daily_occurrences] returns
    are exactly the occurrences that, against the window from 00:00:00 to
    23:59:59 of that day, start in the window, or end in the window, or
    start before and end after it; with an event, only the occurrences of
    that event.  (Without a day the current day is taken; each such row is
    returned as often as the table holds it.) *)
Theorem daily_occurrences_exact :
  forall (ord : ordering) (db : DB) (now : datetime) (dt : option datetime)
         (event_ : option Z),
    let d := match dt with Some d => d | None => now end in
    let window_start := make (toordinal d) 0 0 0 0 in
    let window_end := make (toordinal d) 23 59 59 0 in
    let selected o :=
      day_filter window_start window_end o
      && match event_ with Some e => event o =? e | None => true end in
    (forall o,
        In o (fetch ord (daily_occurrences db now dt event_))
        <-> In o (occurrences db)
            /\ overlaps o window_start window_end
            /\ match event_ with Some e => event o = e | None => True end)
    /\ Permutation (fetch ord (daily_occurrences db now dt event_))
         (filter selected (occurrences db)).
Proof.
  intros ord db now dt event_ d ws we selected.
  assert (Hqs : daily_occurrences db now dt event_
                = filter selected (occurrences db)).
  { unfold daily_occurrences, _daily_occurrences, objects, selected.
    fold d. rewrite end_of_day_eq. fold ws we. unfold midnight. fold ws.
    destruct event_ as [e|].
    - induction (occurrences db) as [|x l IH]; simpl; [reflexivity|].
      destruct (day_filter ws we x); simpl; rewrite IH;
        [destruct (event x =? e)|]; reflexivity.
    - apply filter_ext. intros a. now rewrite andb_true_r. }
  split.
  - intros o. rewrite fetch_In, Hqs, filter_In. unfold selected.
    rewrite andb_true_iff, day_filter_overlaps.
    destruct event_ as [e|]; [rewrite Z.eqb_eq|]; tauto.
  - rewrite Hqs. apply fetch_perm.
Qed.

(** Under the ordering of [OccurrenceBase.Meta] the rows of a day come in
    ascending (start_time, end_time) order. *)
Theorem daily_occurrences_ascending :
  forall (db : DB) (now : datetime) (dt : option datetime)
         (event_ : option Z),
    StronglySorted occ_le
      (fetch OccurrenceBase_Meta_ordering
         (daily_occurrences db now dt event_)).
Proof. intros. apply fetch_sorted. Qed.

(** C8: there are an occurrence and a window on which the three clauses of
    the day filter and the test [start <= window_end AND end >= window_start]
    disagree: the two are not the same function of the four times.  (The
    occurrence found ends before it starts, and the window is the second
    day of the calendar.) *)
Theorem day_filter_not_simple_overlap :
  exists (o : Occurrence) (window_start window_end : datetime),
    window_start <= window_end
    /\ day_filter window_start window_end o
       <> simple_overlap window_start window_end o.
Proof.
  exists (mkOccurrence 1 1 (make 2 9 0 0 0) (make 1 9 0 0 0)),
    (midnight (make 2 12 0 0 0)),
    (replace_hms_235959 (midnight (make 2 12 0 0 0))).
  split; vm_compute; discriminate.
Qed.

(** X3: on an occurrence that does not end before it starts and a window
    that does not either, the day filter is the textbook test. *)
Lemma day_filter_simple_overlap_agree ws we o :
  start_time o <= end_time o -> ws <= we ->
  day_filter ws we o = simple_overlap ws we o.
Proof.
  intros H Hw. unfold day_filter, simple_overlap.
  destruct (Z.leb_spec ws (start_time o)), (Z.leb_spec (start_time o) we),
    (Z.leb_spec ws (end_time o)), (Z.leb_spec (end_time o) we),
    (Z.ltb_spec (start_time o) ws), (Z.ltb_spec we (end_time o));
    simpl; try reflexivity; lia.
Qed.

(** An occurrence from 23:59 into the next day against the window of the
    day. *)
Lemma day_filter_simple_overlap_agree_witness :
  day_filter (jan_2024 1 0 0) (jan_2024 1 23 59)
    (mkOccurrence 1 1 (jan_2024 1 23 59) (jan_2024 2 1 0))
  = simple_overlap (jan_2024 1 0 0) (jan_2024 1 23 59)
      (mkOccurrence 1 1 (jan_2024 1 23 59) (jan_2024 2 1 0)).
Proof.
  apply day_filter_simple_overlap_agree; vm_compute; discriminate.
Defined.

(* ------------------------------------------------------------------ *)
(** ** The factory *)

(** C7: when [start_time] is omitted, [create_event] takes the current time
    with minute, second and microsecond zeroed (same day, same hour); when
    [end_time] is omitted it takes the start (given or defaulted) plus
    [DEFAULT_OCCURRENCE_DURATION].  A call that omits one of them behaves as
    the call that passes this value (the sum must be a datetime, or the call
    raises), and the single occurrence of an unbounded rule is stored with
    the two defaults. *)
Theorem create_event_default_times :
  forall (rrule_impl : datetime -> rrule_params -> generated)
         (settings : swingtime_settings) (now : datetime) (title_ : string)
         (event_type_ : event_type_arg) (description_ : string)
         (params : rrule_params) (db : DB),
    let hour_start := replace_minute_second_microsecond_0 now in
    let d := DEFAULT_OCCURRENCE_DURATION settings in
    let call := inner_create_event rrule_impl settings now title_ in
    (forall end_time_ : option datetime,
        call event_type_ description_ None end_time_ params db
        = call event_type_ description_ (Some hour_start) end_time_ params db)
    /\ (forall s : datetime,
          0 <= s + d < DT_END ->
          call event_type_ description_ (Some s) None params db
          = call event_type_ description_ (Some s) (Some (s + d)) params db)
    /\ (toordinal hour_start = toordinal now /\ hour hour_start = hour now
        /\ minute hour_start = 0 /\ second hour_start = 0
        /\ microsecond hour_start = 0)
    /\ (0 <= hour_start + d < DT_END ->
        forall (pk : Z) (f : option Freq) (i : option Z),
          occurrences
            (snd (call (Instance pk) description_ None None
                    (mkParams f i None None) db))
          = occurrences db
            ++ [mkOccurrence (next_pk (map occ_id (occurrences db)))
                  (next_pk (map ev_id (events db)))
                  hour_start (hour_start + d)]).
Proof.
  intros rr settings now title_ et desc params db hour_start d call.
  split; [|split; [|split]].
  - intros end_time_. reflexivity.
  - intros s Hv.
    assert (Hadd : Datetime.add s d = Some (s + d)) by now apply add_Some.
    unfold call, inner_create_event, bind, lift, ret.
    destruct et as [pk|a l]; [|destruct (get_or_create a l db) as [[e|r] db1]];
      try reflexivity;
      (destruct (event_create title_ desc _ _) as [[e'|ev] db2];
       [reflexivity|]);
      fold d; now rewrite Hadd.
  - unfold hour_start, replace_minute_second_microsecond_0.
    pose proof (fields_range now) as (Hh & _).
    destruct (make_fields (toordinal now) (hour now) 0 0 0)
      as (H1 & H2 & H3 & H4 & H5); [lia|lia|lia|lia|].
    repeat split; assumption.
  - intros Hv pk f i.
    assert (Hadd : Datetime.add hour_start d = Some (hour_start + d))
      by now apply add_Some.
    unfold call, inner_create_event, bind, lift, ret, event_create.
    fold hour_start d. rewrite Hadd. reflexivity.
Qed.

(** The defaults at 2024-01-01 18:47:13.25 with a duration of one hour:
    from 18:00 to 19:00. *)
Lemma create_event_default_times_witness :
  let now := datetime_of 2024 1 1 18 47 13 250000 in
  let hour_start := replace_minute_second_microsecond_0 now in
  let d := DEFAULT_OCCURRENCE_DURATION settings_one_hour in
  hour_start = jan_2024 1 18 0
  /\ hour_start + d = jan_2024 1 19 0
  /\ inner_create_event Rrule.rrule settings_one_hour now "Practice"
       (Instance 1) "" None None no_params prac_db
     = inner_create_event Rrule.rrule settings_one_hour now "Practice"
         (Instance 1) "" (Some hour_start) (Some (hour_start + d))
         no_params prac_db
  /\ occurrences
       (snd (inner_create_event Rrule.rrule settings_one_hour now "Practice"
               (Instance 1) "" None None no_params prac_db))
     = [mkOccurrence 1 1 (jan_2024 1 18 0) (jan_2024 1 19 0)].
Proof.
  cbv zeta.
  destruct (create_event_default_times Rrule.rrule settings_one_hour
              (datetime_of 2024 1 1 18 47 13 250000) "Practice" (Instance 1)
              "" no_params prac_db) as (H1 & H2 & _ & H4).
  split; [vm_compute; reflexivity|].
  split; [vm_compute; reflexivity|].
  split.
  - rewrite H1. apply H2. vm_compute. split; [discriminate|reflexivity].
  - unfold no_params. rewrite H4; [vm_compute; reflexivity|].
    vm_compute. split; [discriminate|reflexivity].
Defined.

Lemma filter_abbr_label_unique (ets : list EventType) (et : EventType) :
  NoDup (map abbr ets) -> In et ets ->
  filter (fun x => String.eqb (abbr x) (abbr et)
                   && String.eqb (label x) (label et)) ets
  = [et].
Proof.
  induction ets as [|x ets IH]; intros Hnd Hin; [destruct Hin|].
  simpl in Hnd. apply NoDup_cons_iff in Hnd. destruct Hnd as (Hx & Hnd).
  simpl. destruct Hin as [->|Hin].
  - rewrite !String.eqb_refl. simpl. f_equal.
    apply filter_nil_of_false. intros y Hy.
    destruct (String.eqb_spec (abbr y) (abbr et)) as [E|E]; [|reflexivity].
    exfalso. apply Hx. rewrite <- E. now apply in_map.
  - destruct (String.eqb_spec (abbr x) (abbr et)) as [E|E].
    + exfalso. apply Hx. rewrite E. now apply in_map.
    + simpl. now apply IH.
Qed.

(** X4: the row with this abbreviation and this label is there (and
    abbreviations are unique): it is returned, and nothing is written. *)
Lemma get_or_create_existing (db : DB) (et : EventType) :
  NoDup (map abbr (event_types db)) -> In et (event_types db) ->
  get_or_create (abbr et) (label et) db = (inr (et, false), db).
Proof.
  intros Hnd Hin. unfold get_or_create.
  now rewrite (filter_abbr_label_unique _ _ Hnd Hin).
Qed.

(** PRAC looked up under the label it has. *)
Lemma get_or_create_existing_witness :
  get_or_create "PRAC" "Practice" prac_db
  = (inr (mkEventType 1 "PRAC" "Practice", false), prac_db).
Proof.
  apply (get_or_create_existing prac_db (mkEventType 1 "PRAC" "Practice")).
  - simpl. constructor; [intros []|constructor].
  - now left.
Defined.

(** No row has this abbreviation: one is inserted. *)
Lemma get_or_create_fresh (db : DB) (a l : string) :
  (forall et, In et (event_types db) -> abbr et <> a) ->
  get_or_create a l db
  = (inr (mkEventType (next_pk (map et_id (event_types db))) a l, true),
     mkDB (event_types db ++ [mkEventType (next_pk (map et_id (event_types db))) a l])
       (events db) (occurrences db)).
Proof.
  intros H. unfold get_or_create.
  rewrite filter_nil_of_false.
  - replace (existsb _ _) with false; [reflexivity|].
    symmetry. apply not_true_is_false. intros E.
    apply existsb_exists in E. destruct E as (et & Hin & E).
    apply String.eqb_eq in E. now apply (H et).
  - intros et Hin. apply andb_false_iff. left.
    apply String.eqb_neq. now apply H.
Qed.

(** The abbreviation is taken, under other labels only: the insert fails. *)
Lemma get_or_create_abbr_taken (db : DB) (a l : string) :
  (exists et, In et (event_types db) /\ abbr et = a) ->
  (forall et, In et (event_types db) -> abbr et = a -> label et <> l) ->
  get_or_create a l db = (inl IntegrityError, db).
Proof.
  intros (et & Hin & Ha) Hl. unfold get_or_create.
  rewrite filter_nil_of_false.
  - replace (existsb _ _) with true; [reflexivity|].
    symmetry. apply existsb_exists. exists et. split; [assumption|].
    now apply String.eqb_eq.
  - intros x Hx.
    destruct (String.eqb_spec (abbr x) a) as [E|E]; [|reflexivity].
    simpl. apply String.eqb_neq. now apply Hl.
Qed.

(** X13: whenever the abbreviation of the tuple is taken, under other
    labels only, [create_event] raises [IntegrityError] and stores nothing,
    whatever the other arguments. *)
Lemma inner_create_event_abbr_taken rr settings now title_ a l desc st en p db :
  (exists et, In et (event_types db) /\ abbr et = a) ->
  (forall et, In et (event_types db) -> abbr et = a -> label et <> l) ->
  inner_create_event rr settings now title_ (Tuple a l) desc st en p db
  = (inl IntegrityError, db).
Proof.
  intros H1 H2. unfold inner_create_event, bind.
  now rewrite get_or_create_abbr_taken.
Qed.

(** PRAC is there under the label "Practice"; the tuple asks for
    "Practice Session". *)
Lemma inner_create_event_abbr_taken_witness :
  inner_create_event Rrule.rrule settings_one_hour (jan_2024 1 12 0)
    "Practice" (Tuple "PRAC" "Practice Session") "" None None no_params
    prac_db
  = (inl IntegrityError, prac_db).
Proof.
  apply inner_create_event_abbr_taken.
  - exists (mkEventType 1 "PRAC" "Practice"). split; [now left|reflexivity].
  - intros et [<-|[]] _. discriminate.
Defined.

(** C6 (the code at the failing input): the event type PRAC exists under
    the label "Practice"; [create_event] with the tuple
    [("PRAC", "Practice Session")] does not use it: the lookup is by
    abbreviation AND label, finds nothing, and the insert raises
    [IntegrityError]; no event and no occurrence is stored. *)
Theorem create_event_abbr_taken_other_label :
  create_event settings_one_hour (datetime_of 2024 1 1 12 0 0 0)
    "Practice" (Tuple "PRAC" "Practice Session") ""
    (Some (datetime_of 2024 1 1 18 0 0 0))
    (Some (datetime_of 2024 1 1 19 30 0 0))
    (mkParams (Some WEEKLY) None (Some 3) None) prac_db
  = (inl IntegrityError, prac_db).
Proof. vm_compute. reflexivity. Qed.

(** X5: the scenario of the specification: one event type, one event, three
    weekly occurrences from 18:00 to 19:30. *)
Example create_event_practice_scenario :
  create_event settings_one_hour (datetime_of 2024 1 1 12 0 0 0)
    "Practice" (Tuple "PRAC" "Practice Session") ""
    (Some (datetime_of 2024 1 1 18 0 0 0))
    (Some (datetime_of 2024 1 1 19 30 0 0))
    (mkParams (Some WEEKLY) None (Some 3) None) empty_db
  = (inr (mkEvent 1 "Practice" "" 1),
     mkDB [mkEventType 1 "PRAC" "Practice Session"]
       [mkEvent 1 "Practice" "" 1]
       [mkOccurrence 1 1 (datetime_of 2024 1 1 18 0 0 0)
          (datetime_of 2024 1 1 19 30 0 0);
        mkOccurrence 2 1 (datetime_of 2024 1 8 18 0 0 0)
          (datetime_of 2024 1 8 19 30 0 0);
        mkOccurrence 3 1 (datetime_of 2024 1 15 18 0 0 0)
          (datetime_of 2024 1 15 19 30 0 0)]).
Proof. vm_compute. reflexivity. Qed.

(** The same tuple a second time: the event type is found, none is added. *)
Example create_event_practice_twice :
  event_types
    (snd (create_event settings_one_hour (datetime_of 2024 1 1 12 0 0 0)
            "Practice" (Tuple "PRAC" "Practice Session") "" None None
            (mkParams None None None None)
            (snd (create_event settings_one_hour
                    (datetime_of 2024 1 1 12 0 0 0)
                    "Practice" (Tuple "PRAC" "Practice Session") ""
                    None None (mkParams None None None None) empty_db))))
  = [mkEventType 1 "PRAC" "Practice Session"].
Proof. vm_compute. reflexivity. Qed.

(* ------------------------------------------------------------------ *)
(** ** The days of an occurrence *)

Lemma filter_comm {A} (p q : A -> bool) (l : list A) :
  filter p (filter q l) = filter q (filter p l).
Proof.
  induction l as [|x l IH]; simpl; [reflexivity|].
  destruct (p x) eqn:Ep, (q x) eqn:Eq; simpl; rewrite ?Ep, ?Eq, IH; reflexivity.
Qed.

(** X10: [EventBase.daily_occurrences] returns the same queryset as
    [Occurrence.objects.daily_occurrences] called with the event: the same
    rows in the same order. *)
Theorem event_daily_occurrences_as_manager :
  forall (db : DB) (now : datetime) (self : Z) (dt : option datetime),
    event_daily_occurrences db now self dt
    = daily_occurrences db now dt (Some self).
Proof.
  intros. unfold event_daily_occurrences, daily_occurrences,
    _daily_occurrences, occurrence_set, objects.
  apply filter_comm.
Qed.

Lemma daily_occurrences_In ord db now dt event_ o :
  In o (fetch ord (daily_occurrences db now dt event_))
  <-> In o (occurrences db)
      /\ day_filter (midnight (match dt with Some d => d | None => now end))
           (replace_hms_235959
              (midnight (match dt with Some d => d | None => now end))) o
         = true
      /\ match event_ with Some e => event o = e | None => True end.
Proof.
  rewrite fetch_In. unfold daily_occurrences, _daily_occurrences, objects.
  destruct event_ as [e|]; rewrite ?filter_In, ?Z.eqb_eq; tauto.
Qed.

Lemma day_window (d : datetime) :
  midnight d = (toordinal d - 1) * US_PER_DAY
  /\ replace_hms_235959 (midnight d)
     = (toordinal d - 1) * US_PER_DAY + (US_PER_DAY - US_PER_SECOND).
Proof.
  rewrite end_of_day_eq. unfold midnight, make, toordinal.
  unfold US_PER_DAY, US_PER_HOUR, US_PER_MINUTE, US_PER_SECOND. lia.
Qed.

(** X11: an occurrence that does not end before it starts, and whose start
    has no microseconds, is among the rows of a day exactly when the table
    holds it, the day is not before the day it starts and not after the day
    it ends, and it is of the event asked for, if one is. *)
Theorem daily_occurrences_days_of_occurrence :
  forall (ord : ordering) (db : DB) (now d : datetime) (event_ : option Z)
         (o : Occurrence),
    start_time o <= end_time o ->
    microsecond (start_time o) = 0 ->
    (In o (fetch ord (daily_occurrences db now (Some d) event_))
     <-> In o (occurrences db)
         /\ toordinal (start_time o) <= toordinal d <= toordinal (end_time o)
         /\ match event_ with Some e => event o = e | None => True end).
Proof.
  intros ord db now d event_ o Hse Hus.
  rewrite daily_occurrences_In, day_filter_overlaps.
  destruct (day_window d) as (-> & ->).
  assert (overlaps o ((toordinal d - 1) * US_PER_DAY)
            ((toordinal d - 1) * US_PER_DAY + (US_PER_DAY - US_PER_SECOND))
          <-> toordinal (start_time o) <= toordinal d
                <= toordinal (end_time o)); [|tauto].
  unfold overlaps. revert Hus Hse.
  generalize (start_time o) (end_time o). intros s e. 
  unfold microsecond, toordinal,
    US_PER_DAY, US_PER_HOUR, US_PER_MINUTE, US_PER_SECOND.
  intros Hus Hse.
  Z.to_euclidean_division_equations. lia.
Qed.

(** An occurrence from January 1st 23:00 to January 3rd 01:00, asked for
    on January 2nd. *)
Lemma daily_occurrences_days_of_occurrence_witness :
  let o := mkOccurrence 1 1 (jan_2024 1 23 0) (jan_2024 3 1 0) in
  let db := mkDB [] [] [o] in
  start_time o <= end_time o
  /\ microsecond (start_time o) = 0
  /\ (In o (fetch no_ordering
              (daily_occurrences db (jan_2024 9 0 0)
                 (Some (jan_2024 2 12 0)) None))
      <-> In o (occurrences db)
          /\ toordinal (start_time o) <= toordinal (jan_2024 2 12 0)
               <= toordinal (end_time o)
          /\ True).
Proof.
  cbv zeta.
  split; [vm_compute; discriminate|].
  split; [vm_compute; reflexivity|].
  apply (daily_occurrences_days_of_occurrence no_ordering
           (mkDB [] [] [mkOccurrence 1 1 (jan_2024 1 23 0) (jan_2024 3 1 0)])
           (jan_2024 9 0 0) (jan_2024 2 12 0) None
           (mkOccurrence 1 1 (jan_2024 1 23 0) (jan_2024 3 1 0)));
    vm_compute; first [reflexivity | discriminate].
Defined.

(** X12: the window of a day ends at 23:59:59.000000.  An occurrence that
    starts after that instant of its day and ends on the same day (not
    before it starts) is returned for no day at all. *)
Theorem daily_occurrences_last_second_gap :
  forall (ord : ordering) (db : DB) (now : datetime) (dt : option datetime)
         (event_ : option Z) (o : Occurrence),
    make (toordinal (start_time o)) 23 59 59 0 < start_time o ->
    start_time o <= end_time o ->
    toordinal (end_time o) = toordinal (start_time o) ->
    ~ In o (fetch ord (daily_occurrences db now dt event_)).
Proof.
  intros ord db now dt event_ o Hgap Hse Hday Hin.
  apply daily_occurrences_In in Hin. destruct Hin as (_ & Hf & _).
  apply day_filter_overlaps in Hf.
  destruct (day_window (match dt with Some d => d | None => now end))
    as (Hws & Hwe).
  rewrite Hwe, Hws in Hf. clear Hws Hwe.
  revert Hf. generalize (toordinal (match dt with Some d => d | None => now end)).
  intros D Hf. unfold overlaps in Hf.
  revert Hgap Hse Hday Hf. generalize (start_time o) (end_time o).
  intros s e. unfold make, toordinal,
    US_PER_DAY, US_PER_HOUR, US_PER_MINUTE, US_PER_SECOND.
  intros Hgap Hse Hday Hf.
  Z.to_euclidean_division_equations. lia.
Qed.

(** An occurrence from 23:59:59.5 to 23:59:59.9 of January 1st is stored,
    and not returned for January 1st. *)
Lemma daily_occurrences_last_second_gap_witness :
  let o := mkOccurrence 1 1 (datetime_of 2024 1 1 23 59 59 500000)
             (datetime_of 2024 1 1 23 59 59 900000) in
  let db := mkDB [] [] [o] in
  In o (occurrences db)
  /\ make (toordinal (start_time o)) 23 59 59 0 < start_time o
  /\ ~ In o (fetch no_ordering
               (daily_occurrences db (jan_2024 9 0 0)
                  (Some (jan_2024 1 12 0)) None)).
Proof.
  cbv zeta.
  split; [now left|].
  split; [vm_compute; reflexivity|].
  apply (daily_occurrences_last_second_gap no_ordering);
    vm_compute; first [reflexivity | discriminate].
Defined.

(* ------------------------------------------------------------------ *)
(** ** What the factory stores *)

Lemma next_pk_gt (ids : list Z) (x : Z) : In x ids -> x < next_pk ids.
Proof.
  unfold next_pk. induction ids as [|y ids IH]; [intros []|].
  cbn [fold_right]. intros [->|H]; [lia|]. specialize (IH H). lia.
Qed.

Lemma next_pk_fresh (ids : list Z) : ~ In (next_pk ids) ids.
Proof. intros H. apply next_pk_gt in H. lia. Qed.

Lemma add_occurrences_outcome rr self st et p db :
  match add_occurrences rr self st et p db with
  | (inl _, db') => db' = db
  | (inr _, db') =>
      exists news,
        db' = with_new_occurrences db news
        /\ forall o, In o news ->
             event o = self /\ end_time o = start_time o + (et - st)
  end.
Proof.
  unfold add_occurrences. destruct (negb _).
  - exists [single_occurrence db self st et]. split; [reflexivity|].
    intros o [<-|[]]. simpl. split; [reflexivity|lia].
  - unfold bind, lift.
    destruct (rr st (setdefault_freq p)) as [evs r]. cbn [yielded raised].
    destruct (build_occurrences self (Datetime.sub et st) evs)
      as [e|occs] eqn:Eb; [reflexivity|].
    destruct r as [e|]; [reflexivity|].
    destruct (bulk_create_appends occs db) as (news & Hb & Hd).
    rewrite Hb. exists news. split; [reflexivity|].
    intros o Ho. apply build_occurrences_inv in Eb. destruct Eb as (_ & Hf).
    destruct (Hf _ (occ_data_fields _ _ _ Hd Ho)) as (H1 & H2).
    simpl in H1, H2. unfold Datetime.sub in H2. auto.
Qed.

Lemma inner_create_event_instance rr settings now title_ pk desc st en p db :
  let ev := new_event db title_ desc pk in
  let db1 := with_new_event db ev in
  let st' := match st with
             | Some s => s
             | None => replace_minute_second_microsecond_0 now
             end in
  inner_create_event rr settings now title_ (Instance pk) desc st en p db
  = match (match en with
           | Some e => Some e
           | None => Datetime.add st' (DEFAULT_OCCURRENCE_DURATION settings)
           end) with
    | None => (inl OverflowError, db1)
    | Some e =>
        match add_occurrences rr (ev_id ev) st' e p db1 with
        | (inl x, db2) => (inl x, db2)
        | (inr _, db2) => (inr ev, db2)
        end
    end.
Proof.
  intros ev db1 st'.
  unfold inner_create_event, bind, ret, lift, event_create.
  fold (new_event db title_ desc pk). fold ev.
  fold (with_new_event db ev). fold db1. fold st'.
  destruct en as [e|].
  - now destruct (add_occurrences rr (ev_id ev) st' e p db1) as [[x|u] db2].
  - destruct (Datetime.add st' _) as [e|]; [|reflexivity].
    now destruct (add_occurrences rr (ev_id ev) st' e p db1) as [[x|u] db2].
Qed.

Lemma inner_create_event_tuple rr settings now title_ a l desc st en p db :
  inner_create_event rr settings now title_ (Tuple a l) desc st en p db
  = match get_or_create a l db with
    | (inl e, db') => (inl e, db')
    | (inr r, db') =>
        inner_create_event rr settings now title_ (Instance (et_id (fst r)))
          desc st en p db'
    end.
Proof.
  unfold inner_create_event, bind, ret.
  now destruct (get_or_create a l db) as [[e|r] db'].
Qed.

(** X14: when the tables hold the event type with this abbreviation and
    this label (abbreviations being unique), [create_event] with the tuple
    does what it does with that instance: no event type is created. *)
Theorem create_event_tuple_existing :
  forall (rrule_impl : datetime -> rrule_params -> generated)
         (settings : swingtime_settings) (now : datetime) (title_ : string)
         (et : EventType) (description_ : string)
         (start_time_ end_time_ : option datetime) (params : rrule_params)
         (db : DB),
    NoDup (map abbr (event_types db)) ->
    In et (event_types db) ->
    inner_create_event rrule_impl settings now title_
      (Tuple (abbr et) (label et)) description_ start_time_ end_time_
      params db
    = inner_create_event rrule_impl settings now title_
        (Instance (et_id et)) description_ start_time_ end_time_ params db.
Proof.
  intros rr s now t et desc st en p db Hnd Hin.
  rewrite inner_create_event_tuple. unfold get_or_create.
  now rewrite (filter_abbr_label_unique _ _ Hnd Hin).
Qed.

(** PRAC under the label it has. *)
Lemma create_event_tuple_existing_witness :
  inner_create_event Rrule.rrule settings_one_hour (jan_2024 1 12 0)
    "Practice" (Tuple "PRAC" "Practice") "" None None no_params prac_db
  = inner_create_event Rrule.rrule settings_one_hour (jan_2024 1 12 0)
      "Practice" (Instance 1) "" None None no_params prac_db.
Proof.
  apply (create_event_tuple_existing Rrule.rrule settings_one_hour
           (jan_2024 1 12 0) "Practice" (mkEventType 1 "PRAC" "Practice")
           "" None None no_params prac_db).
  - simpl. constructor; [intros []|constructor].
  - now left.
Defined.

(** X15: when no event type has the abbreviation, [create_event] with the
    tuple first inserts the event type and then does what it does with that
    new instance. *)
Theorem create_event_tuple_fresh :
  forall (rrule_impl : datetime -> rrule_params -> generated)
         (settings : swingtime_settings) (now : datetime) (title_ : string)
         (abbr_ label_ : string) (description_ : string)
         (start_time_ end_time_ : option datetime) (params : rrule_params)
         (db : DB),
    (forall et, In et (event_types db) -> abbr et <> abbr_) ->
    let et := new_event_type db abbr_ label_ in
    inner_create_event rrule_impl settings now title_
      (Tuple abbr_ label_) description_ start_time_ end_time_ params db
    = inner_create_event rrule_impl settings now title_
        (Instance (et_id et)) description_ start_time_ end_time_ params
        (with_new_event_type db et).
Proof.
  intros rr s now t a l desc st en p db Hfresh et.
  rewrite inner_create_event_tuple.
  now rewrite (get_or_create_fresh db a l Hfresh).
Qed.

(** SOC is not there yet. *)
Lemma create_event_tuple_fresh_witness :
  inner_create_event Rrule.rrule settings_one_hour (jan_2024 1 12 0)
    "Social" (Tuple "SOC" "Social dance") "" None None no_params prac_db
  = inner_create_event Rrule.rrule settings_one_hour (jan_2024 1 12 0)
      "Social" (Instance 2) "" None None no_params
      (mkDB [mkEventType 1 "PRAC" "Practice";
             mkEventType 2 "SOC" "Social dance"] [] []).
Proof.
  apply (create_event_tuple_fresh Rrule.rrule settings_one_hour
           (jan_2024 1 12 0) "Social" "SOC" "Social dance" "" None None
           no_params prac_db).
  intros et [<-|[]]. discriminate.
Defined.

(** X16: [create_event] with an [EventType] instance, for every
    implementation of the rule.  A call that returns has inserted the event
    it returns, with the title, the description and the event type passed,
    and after it only occurrences of that event.  A call that raises has
    inserted the event all the same, and no occurrence: the call is not
    atomic. *)
Theorem create_event_instance_frame :
  forall (rrule_impl : datetime -> rrule_params -> generated)
         (settings : swingtime_settings) (now : datetime) (title_ : string)
         (pk : Z) (description_ : string)
         (start_time_ end_time_ : option datetime) (params : rrule_params)
         (db : DB),
    let ev := new_event db title_ description_ pk in
    match inner_create_event rrule_impl settings now title_ (Instance pk)
            description_ start_time_ end_time_ params db with
    | (inl _, db') => db' = with_new_event db ev
    | (inr r, db') =>
        r = ev
        /\ exists news,
             db' = with_new_occurrences (with_new_event db ev) news
             /\ forall o, In o news -> event o = ev_id ev
    end.
Proof.
  intros rr s now t pk desc st en p db ev.
  rewrite inner_create_event_instance. fold ev.
  destruct (match en with Some e => Some e | None => _ end) as [e|];
    [|reflexivity].
  match goal with
  | |- context [add_occurrences rr ?self ?a ?b p ?d] =>
      pose proof (add_occurrences_outcome rr self a b p d) as H;
      destruct (add_occurrences rr self a b p d) as [[x|u] db2]
  end.
  - exact H.
  - destruct H as (news & -> & Hn). split; [reflexivity|].
    exists news. split; [reflexivity|]. intros o Ho. now apply Hn.
Qed.

(** X17: when [end_time] is omitted and [start_time] plus
    [DEFAULT_OCCURRENCE_DURATION] is past the last datetime, [create_event]
    raises [OverflowError], and the event it has created by then stays
    stored, without an occurrence. *)
Theorem create_event_overflow_keeps_event :
  forall (rrule_impl : datetime -> rrule_params -> generated)
         (settings : swingtime_settings) (now : datetime) (title_ : string)
         (pk : Z) (description_ : string) (s : datetime)
         (params : rrule_params) (db : DB),
    DT_END <= s + DEFAULT_OCCURRENCE_DURATION settings ->
    inner_create_event rrule_impl settings now title_ (Instance pk)
      description_ (Some s) None params db
    = (inl OverflowError,
       with_new_event db (new_event db title_ description_ pk)).
Proof.
  intros rr st now t pk desc s p db H.
  rewrite inner_create_event_instance.
  unfold Datetime.add, valid.
  replace (s + DEFAULT_OCCURRENCE_DURATION st <? DT_END) with false
    by (symmetry; apply Z.ltb_ge; lia).
  now rewrite andb_false_r.
Qed.

(** An event from 9999-12-31 23:00 with the default duration of one hour. *)
Lemma create_event_overflow_keeps_event_witness :
  inner_create_event Rrule.rrule settings_one_hour (jan_2024 1 12 0)
    "Last dance" (Instance 1) "" (Some (datetime_of 9999 12 31 23 0 0 0))
    None no_params prac_db
  = (inl OverflowError,
     mkDB [mkEventType 1 "PRAC" "Practice"]
       [mkEvent 1 "Last dance" "" 1] []).
Proof.
  apply (create_event_overflow_keeps_event Rrule.rrule settings_one_hour
           (jan_2024 1 12 0) "Last dance" 1 ""
           (datetime_of 9999 12 31 23 0 0 0) no_params prac_db).
  vm_compute. discriminate.
Defined.

Lemma get_or_create_outcome a l db :
  match get_or_create a l db with
  | (inl _, db') => db' = db
  | (inr (et, created), db') =>
      abbr et = a /\ label et = l
      /\ if created
         then (forall x, In x (event_types db) -> abbr x <> a)
              /\ et = new_event_type db a l
              /\ db' = with_new_event_type db et
         else In et (event_types db) /\ db' = db
  end.
Proof.
  unfold get_or_create.
  destruct (filter _ (event_types db)) as [|et [|et' rest]] eqn:Ef.
  - destruct (existsb _ _) eqn:Ee; [reflexivity|].
    split; [reflexivity|]. split; [reflexivity|].
    split; [|split; reflexivity].
    intros x Hx Hax.
    assert (existsb (fun et => String.eqb (abbr et) a) (event_types db) = true).
    { apply existsb_exists. exists x. split; [assumption|].
      now apply String.eqb_eq. }
    congruence.
  - assert (Hin : In et (filter (fun et => String.eqb (abbr et) a
                                           && String.eqb (label et) l)
                           (event_types db))).
    { rewrite Ef. now left. }
    apply filter_In in Hin. destruct Hin as (Hin & Hb).
    apply andb_true_iff in Hb. destruct Hb as (Ha & Hl).
    apply String.eqb_eq in Ha. apply String.eqb_eq in Hl. auto.
  - reflexivity.
Qed.

Lemma insert_occurrence_nodup rows u :
  NoDup (map occ_id rows) -> NoDup (map occ_id (insert_occurrence rows u)).
Proof.
  intros H. unfold insert_occurrence. rewrite map_app. simpl.
  eapply Permutation_NoDup; [apply Permutation_cons_append|].
  constructor; [apply next_pk_fresh|assumption].
Qed.

Lemma bulk_insert_nodup objs :
  forall rows, NoDup (map occ_id rows) ->
    NoDup (map occ_id (fold_left insert_occurrence objs rows)).
Proof.
  induction objs as [|u objs IH]; intros rows H; simpl; [assumption|].
  apply IH. now apply insert_occurrence_nodup.
Qed.

Lemma add_occurrences_occ_ids rr self st et p db :
  NoDup (map occ_id (occurrences db)) ->
  NoDup (map occ_id (occurrences (snd (add_occurrences rr self st et p db)))).
Proof.
  intros H. unfold add_occurrences. destruct (negb _).
  - simpl. now apply insert_occurrence_nodup.
  - unfold bind, lift.
    destruct (rr st (setdefault_freq p)) as [evs r]. cbn [yielded raised].
    destruct (build_occurrences self (Datetime.sub et st) evs)
      as [e|occs]; [assumption|].
    destruct r as [e|]; [assumption|].
    simpl. now apply bulk_insert_nodup.
Qed.

Lemma add_occurrences_consistent rr self st et p db :
  consistent db -> In self (map ev_id (events db)) ->
  consistent (snd (add_occurrences rr self st et p db)).
Proof.
  intros Hc Hself.
  pose proof (add_occurrences_occ_ids rr self st et p db) as Hids.
  pose proof (add_occurrences_outcome rr self st et p db) as Ho.
  destruct (add_occurrences rr self st et p db) as [[e|u] db'].
  - simpl in *. now subst.
  - destruct Ho as (news & -> & Hn). simpl in Hids.
    destruct Hc as (H1 & H2 & H3 & H4 & H5 & H6).
    repeat split; simpl; try assumption; [now apply Hids|].
    intros o Ho. apply in_app_or in Ho. destruct Ho as [Ho|Ho]; [auto|].
    destruct (Hn o Ho) as (-> & _). assumption.
Qed.

Lemma with_new_event_consistent db t desc pk :
  consistent db -> In pk (map et_id (event_types db)) ->
  consistent (with_new_event db (new_event db t desc pk)).
Proof.
  intros (H1 & H2 & H3 & H4 & H5 & H6) Hpk.
  repeat split; simpl; try assumption.
  - rewrite map_app. simpl.
    eapply Permutation_NoDup; [apply Permutation_cons_append|].
    constructor; [apply next_pk_fresh|assumption].
  - intros e He. apply in_app_or in He.
    destruct He as [He|[<-|[]]]; [auto|exact Hpk].
  - intros o Ho. rewrite map_app. apply in_or_app. left. auto.
Qed.

Lemma inner_create_event_instance_consistent rr s now t pk desc st en p db :
  consistent db -> In pk (map et_id (event_types db)) ->
  consistent
    (snd (inner_create_event rr s now t (Instance pk) desc st en p db)).
Proof.
  intros Hc Hpk. rewrite inner_create_event_instance.
  pose proof (with_new_event_consistent db t desc pk Hc Hpk) as Hc1.
  destruct (match en with Some e => Some e | None => _ end) as [e|];
    [|exact Hc1].
  match goal with
  | |- context [add_occurrences rr ?self ?a ?b p ?d] =>
      pose proof (add_occurrences_consistent rr self a b p d Hc1) as H;
      destruct (add_occurrences rr self a b p d) as [[x|u] db2]
  end; apply H; simpl; rewrite map_app; apply in_or_app; right; now left.
Qed.

(** X18: [create_event] keeps the tables consistent, whether it returns or
    raises and for every implementation of the rule: abbreviations and
    primary keys stay unique, every event has its event type and every
    occurrence its event.  (An instance passed as the event type must be a
    row of the table.) *)
Theorem create_event_keeps_consistent :
  forall (rrule_impl : datetime -> rrule_params -> generated)
         (settings : swingtime_settings) (now : datetime) (title_ : string)
         (event_type_ : event_type_arg) (description_ : string)
         (start_time_ end_time_ : option datetime) (params : rrule_params)
         (db : DB),
    consistent db ->
    match event_type_ with
    | Instance pk => In pk (map et_id (event_types db))
    | Tuple _ _ => True
    end ->
    consistent
      (snd (inner_create_event rrule_impl settings now title_ event_type_
              description_ start_time_ end_time_ params db)).
Proof.
  intros rr s now t eta desc st en p db Hc Heta.
  destruct eta as [pk|a l].
  - now apply inner_create_event_instance_consistent.
  - rewrite inner_create_event_tuple.
    pose proof (get_or_create_outcome a l db) as Hg.
    destruct (get_or_create a l db) as [[e|[et created]] db'].
    + simpl. now subst.
    + destruct Hg as (Ha & Hl & Hg). destruct created.
      * destruct Hg as (Hfresh & -> & ->).
        apply inner_create_event_instance_consistent.
        -- destruct Hc as (H1 & H2 & H3 & H4 & H5 & H6).
           repeat split; simpl; try assumption.
           ++ rewrite map_app. simpl.
              eapply Permutation_NoDup; [apply Permutation_cons_append|].
              constructor; [|assumption].
              intros Hin. apply in_map_iff in Hin.
              destruct Hin as (x & Hx & Hin). now apply (Hfresh x).
           ++ rewrite map_app. simpl.
              eapply Permutation_NoDup; [apply Permutation_cons_append|].
              constructor; [apply next_pk_fresh|assumption].
           ++ intros e He. rewrite map_app. apply in_or_app. left. auto.
        -- simpl. rewrite map_app. apply in_or_app. right. now left.
      * destruct Hg as (Hin & ->).
        apply inner_create_event_instance_consistent; [assumption|].
        now apply in_map.
Qed.

(** The weekly practice on the tables that hold PRAC. *)
Lemma create_event_keeps_consistent_witness :
  consistent prac_db
  /\ consistent
       (snd (inner_create_event Rrule.rrule settings_one_hour
               (jan_2024 1 12 0) "Practice"
               (Tuple "PRAC" "Practice") "" None None
               (mkParams (Some WEEKLY) None (Some 3) None) prac_db)).
Proof.
  assert (H : consistent prac_db).
  { unfold consistent, prac_db. simpl.
    repeat split;
      first [ intros ? []
            | constructor; [intros []|constructor]
            | constructor ]. }
  split; [exact H|].
  apply (create_event_keeps_consistent Rrule.rrule settings_one_hour
           (jan_2024 1 12 0) "Practice" (Tuple "PRAC" "Practice") ""
           None None (mkParams (Some WEEKLY) None (Some 3) None) prac_db H).
  exact I.
Defined.

Lemma find_new_event evs ev :
  ev_id ev = next_pk (map ev_id evs) ->
  find (fun e => ev_id e =? ev_id ev) (evs ++ [ev]) = Some ev.
Proof.
  intros Hid.
  assert (H : forall l, (forall e, In e l -> ev_id e <> ev_id ev) ->
                find (fun e => ev_id e =? ev_id ev) (l ++ [ev]) = Some ev).
  { induction l as [|x l IH]; intros Hl; simpl.
    - now rewrite Z.eqb_refl.
    - replace (ev_id x =? ev_id ev) with false.
      + apply IH. intros e He. apply Hl. now right.
      + symmetry. apply Z.eqb_neq. apply Hl. now left. }
  apply H. intros e He. rewrite Hid.
  pose proof (next_pk_gt (map ev_id evs) (ev_id e) (in_map ev_id _ _ He)). lia.
Qed.

Lemma inner_create_event_instance_success rr s now t pk desc st en p db ev db' :
  (forall o, In o (occurrences db) -> In (event o) (map ev_id (events db))) ->
  inner_create_event rr s now t (Instance pk) desc st en p db = (inr ev, db') ->
  ev = new_event db t desc pk
  /\ event_types db' = event_types db
  /\ events db' = events db ++ [ev]
  /\ (exists news,
        occurrences db' = occurrences db ++ news
        /\ occurrence_set db' (ev_id ev) = news)
  /\ (forall o, In o (occurrence_set db' (ev_id ev)) ->
        occurrence_title db' o = Some t
        /\ occurrence_event_type db' o = Some pk).
Proof.
  intros Hfk. rewrite inner_create_event_instance.
  destruct (match en with Some e => Some e | None => _ end) as [e|];
    [|discriminate].
  match goal with
  | |- context [add_occurrences rr ?self ?a ?b p ?d] =>
      pose proof (add_occurrences_outcome rr self a b p d) as H;
      destruct (add_occurrences rr self a b p d) as [[x|u] db2]
  end; [discriminate|].
  intros [= <- <-]. destruct H as (news & -> & Hn).
  set (ev := new_event db t desc pk) in *.
  assert (Hset : occurrence_set
                   (with_new_occurrences (with_new_event db ev) news)
                   (ev_id ev) = news).
  { unfold occurrence_set, with_new_occurrences, with_new_event. simpl.
    rewrite filter_app, filter_nil_of_false.
    - simpl. apply forallb_filter_id. apply forallb_forall.
      intros o Ho. apply Z.eqb_eq. now apply Hn.
    - intros o Ho. apply Z.eqb_neq. intros E.
      apply Hfk in Ho. rewrite E in Ho. simpl in Ho.
      now apply next_pk_fresh in Ho. }
  split; [reflexivity|]. split; [reflexivity|]. split; [reflexivity|].
  split; [exists news; split; [reflexivity|exact Hset]|].
  intros o Ho. rewrite Hset in Ho. destruct (Hn o Ho) as (He & _).
  unfold occurrence_title, occurrence_event_type, occurrence_event.
  simpl events. rewrite He, find_new_event by reflexivity.
  split; reflexivity.
Qed.

(** X19: what a call of [create_event] that returns has done, on tables in
    which every occurrence has its event.  The event returned is new, has
    the title and the description passed and is the last row of the events;
    its event type is the instance passed, or a row with the abbreviation
    and the label of the tuple; the occurrences of the event are exactly the
    rows the call appended; and each of them has the title of the event as
    its [title] and the event type of the event as its [event_type]. *)
Theorem create_event_success :
  forall (rrule_impl : datetime -> rrule_params -> generated)
         (settings : swingtime_settings) (now : datetime) (title_ : string)
         (event_type_ : event_type_arg) (description_ : string)
         (start_time_ end_time_ : option datetime) (params : rrule_params)
         (db db' : DB) (ev : Event),
    (forall o, In o (occurrences db) ->
               In (event o) (map ev_id (events db))) ->
    inner_create_event rrule_impl settings now title_ event_type_
      description_ start_time_ end_time_ params db = (inr ev, db') ->
    title ev = title_ /\ description ev = description_
    /\ ev_id ev = next_pk (map ev_id (events db))
    /\ events db' = events db ++ [ev]
    /\ match event_type_ with
       | Instance pk => event_type ev = pk /\ event_types db' = event_types db
       | Tuple a l =>
           exists et, In et (event_types db') /\ et_id et = event_type ev
                      /\ abbr et = a /\ label et = l
       end
    /\ (exists news,
          occurrences db' = occurrences db ++ news
          /\ occurrence_set db' (ev_id ev) = news)
    /\ (forall o, In o (occurrence_set db' (ev_id ev)) ->
          occurrence_title db' o = Some title_
          /\ occurrence_event_type db' o = Some (event_type ev)).
Proof.
  intros rr s now t eta desc st en p db db' ev Hfk Hcall.
  destruct eta as [pk|a l].
  - destruct (inner_create_event_instance_success _ _ _ _ _ _ _ _ _ _ _ _
                Hfk Hcall) as (-> & H2 & H3 & H4 & H5).
    unfold new_event in *. simpl in *.
    repeat split; try reflexivity; try assumption; now apply H5.
  - rewrite inner_create_event_tuple in Hcall.
    pose proof (get_or_create_outcome a l db) as Hg.
    destruct (get_or_create a l db) as [[e|[et created]] db0];
      [discriminate|].
    destruct Hg as (Ha & Hl & Hg). simpl fst in Hcall.
    assert (H0 : events db0 = events db /\ occurrences db0 = occurrences db
                 /\ In et (event_types db0)).
    { destruct created.
      - destruct Hg as (_ & _ & ->). simpl.
        repeat split. apply in_or_app. right. now left.
      - destruct Hg as (Hin & ->). auto. }
    destruct H0 as (Hev & Hocc & Hin).
    assert (Hfk0 : forall o, In o (occurrences db0) ->
                     In (event o) (map ev_id (events db0))).
    { rewrite Hev, Hocc. exact Hfk. }
    destruct (inner_create_event_instance_success _ _ _ _ _ _ _ _ _ _ _ _
                Hfk0 Hcall) as (-> & H2 & H3 & H4 & H5).
    simpl title. simpl description. simpl ev_id. simpl event_type.
    simpl ev_id in H4, H5. simpl event_type in H5.
    rewrite Hev in *. rewrite Hocc in H4.
    repeat split; try assumption; try (now apply H5).
    exists et. rewrite H2. auto.
Qed.

(** The weekly practice: three occurrences, each titled "Practice". *)
Lemma create_event_success_witness :
  exists (ev : Event) (db' : DB),
    inner_create_event Rrule.rrule settings_one_hour (jan_2024 1 12 0)
      "Practice" (Tuple "PRAC" "Practice") "" 
      (Some (jan_2024 1 18 0)) (Some (jan_2024 1 19 30))
      (mkParams (Some WEEKLY) None (Some 3) None) prac_db = (inr ev, db')
    /\ title ev = "Practice"%string
    /\ List.length (occurrence_set db' (ev_id ev)) = 3%nat
    /\ (forall o, In o (occurrence_set db' (ev_id ev)) ->
          occurrence_title db' o = Some "Practice"%string
          /\ occurrence_event_type db' o = Some (event_type ev)).
Proof.
  eexists. eexists. split; [vm_compute; reflexivity|].
  match goal with
  | |- title ?ev = _ /\ List.length (occurrence_set ?db' _) = _ /\ _ =>
      destruct (create_event_success Rrule.rrule settings_one_hour
                  (jan_2024 1 12 0) "Practice" (Tuple "PRAC" "Practice") ""
                  (Some (jan_2024 1 18 0)) (Some (jan_2024 1 19 30))
                  (mkParams (Some WEEKLY) None (Some 3) None) prac_db
                  db' ev)
        as (H1 & _ & _ & _ & _ & _ & H7)
  end.
  - intros o [].
  - vm_compute. reflexivity.
  - split; [exact H1|]. split; [vm_compute; reflexivity|exact H7].
Defined.

(* ------------------------------------------------------------------ *)
(** ** The order of the stored occurrences *)

Lemma iter_In_period f first i until :
  forall fuel count k0 a,
    In a (yielded (Rrule.iter fuel f first (Rrule.stride f i) until count
                     (Rrule.origin f first + k0 * Rrule.stride f i))) ->
    exists k, k0 <= k /\ period_anchor f first i k = Some a.
Proof.
  induction fuel as [|fuel IH]; intros count k0 a; [intros []|].
  cbn [Rrule.iter].
  replace (Rrule.origin f first + k0 * Rrule.stride f i + Rrule.stride f i)
    with (Rrule.origin f first + (k0 + 1) * Rrule.stride f i) by ring.
  assert (Hnext : forall c,
             In a (yielded
                     (Rrule.iter fuel f first (Rrule.stride f i) until c
                        (Rrule.origin f first
                         + (k0 + 1) * Rrule.stride f i))) ->
             exists k, k0 <= k /\ period_anchor f first i k = Some a).
  { intros c Hin. destruct (IH _ _ _ Hin) as (k & Hk & Hp).
    exists k. split; [lia|assumption]. }
  destruct (Rrule.candidate_at f first
              (Rrule.origin f first + k0 * Rrule.stride f i))
    as [| | |res] eqn:E; [intros []|intros []|apply Hnext|].
  destruct (Rrule.after_until until res); [intros []|].
  destruct (first <=? res); [|apply Hnext].
  destruct (Rrule.take_one count) as [count'|]; [|intros []].
  cbv zeta. cbn [yielded].
  intros [<-|Hin]; [|eapply Hnext; eassumption].
  exists k0. split; [lia|]. unfold period_anchor. now rewrite E.
Qed.

Lemma iter_sorted f first i until :
  1 <= i ->
  forall fuel count k0,
    StronglySorted Z.lt
      (yielded (Rrule.iter fuel f first (Rrule.stride f i) until count
                  (Rrule.origin f first + k0 * Rrule.stride f i))).
Proof.
  intros Hi. induction fuel as [|fuel IH]; intros count k0; [constructor|].
  cbn [Rrule.iter].
  replace (Rrule.origin f first + k0 * Rrule.stride f i + Rrule.stride f i)
    with (Rrule.origin f first + (k0 + 1) * Rrule.stride f i) by ring.
  destruct (Rrule.candidate_at f first
              (Rrule.origin f first + k0 * Rrule.stride f i))
    as [| | |res] eqn:E; [constructor|constructor|apply IH|].
  destruct (Rrule.after_until until res); [constructor|].
  destruct (first <=? res); [|apply IH].
  destruct (Rrule.take_one count) as [count'|]; [|constructor].
  cbv zeta. cbn [yielded].
  constructor; [apply IH|].
  apply Forall_forall. intros a Hin.
  apply iter_In_period in Hin. destruct Hin as (k & Hk & Hp).
  apply (period_anchor_lt f first i Hi k0 k res a); [lia| |assumption].
  unfold period_anchor. now rewrite E.
Qed.

Lemma period_anchor_microsecond f first i k a :
  microsecond first = 0 -> period_anchor f first i k = Some a ->
  microsecond a = 0.
Proof.
  intros Hus H.
  assert (Hcal : forall X, microsecond (X * US_PER_DAY + first mod US_PER_DAY) = 0).
  { intros X. revert Hus. unfold microsecond,
      US_PER_DAY, US_PER_HOUR, US_PER_MINUTE, US_PER_SECOND.
    intros Hus. Z.to_euclidean_division_equations. lia. }
  assert (Hfix : forall per q, per = q * US_PER_SECOND ->
             microsecond (first + k * (i * per)) = 0).
  { intros per q ->. revert Hus. unfold microsecond. intros Hus.
    replace (first + k * (i * (q * US_PER_SECOND)))
      with (first + (k * i * q) * US_PER_SECOND) by ring.
    rewrite Z.mod_add by (unfold US_PER_SECOND; lia). exact Hus. }
  destruct f.
  - rewrite period_anchor_yearly in H.
    destruct (ord2ymd (toordinal first)) as [[y m] d].
    destruct (MAXYEAR <? _); [discriminate|].
    destruct (d <=? _); [|discriminate].
    injection H as <-. unfold at_time_of. apply Hcal.
  - rewrite period_anchor_monthly in H.
    destruct (ord2ymd (toordinal first)) as [[y m] d]. cbv zeta in H.
    destruct (MAXYEAR <? _); [discriminate|].
    destruct (d <=? _); [|discriminate].
    injection H as <-. unfold at_time_of. apply Hcal.
  - rewrite (period_anchor_fixed_inv WEEKLY _ first i k a eq_refl H).
    apply (Hfix _ (7 * 86400)). reflexivity.
  - rewrite (period_anchor_fixed_inv DAILY _ first i k a eq_refl H).
    apply (Hfix _ 86400). reflexivity.
  - rewrite (period_anchor_fixed_inv HOURLY _ first i k a eq_refl H).
    apply (Hfix _ 3600). reflexivity.
  - rewrite (period_anchor_fixed_inv MINUTELY _ first i k a eq_refl H).
    apply (Hfix _ 60). reflexivity.
  - rewrite (period_anchor_fixed_inv SECONDLY _ first i k a eq_refl H).
    apply (Hfix _ 1). reflexivity.
Qed.

(** What the rule yields: strictly ascending datetimes of whole seconds. *)
Lemma rrule_sorted_whole st p :
  by_rules p = [] -> 1 <= interval_or_1 (interval p) ->
  StronglySorted Z.lt (yielded (Rrule.rrule st (setdefault_freq p)))
  /\ Forall (fun ev => microsecond ev = 0)
       (yielded (Rrule.rrule st (setdefault_freq p))).
Proof.
  intros Hby Hi. rewrite (rrule_unfold st p Hby Hi). cbv zeta.
  set (f := freq_or_daily (freq p)). set (i := interval_or_1 (interval p)).
  set (first := replace_microsecond_0 st).
  replace (Rrule.origin f first)
    with (Rrule.origin f first + 0 * Rrule.stride f i) by ring.
  split; [now apply iter_sorted|].
  apply Forall_forall. intros a Hin. apply iter_In_period in Hin.
  destruct Hin as (k & _ & Hp).
  apply (period_anchor_microsecond f first i k a); [|assumption].
  unfold first. rewrite replace_microsecond_0_eq.
  unfold microsecond, US_PER_SECOND.
  Z.to_euclidean_division_equations. lia.
Qed.

(** The rows a call of [add_occurrences] with [dateutil]'s rule appends,
    for a rule without secondary constraints and with [interval >= 1]. *)
Lemma add_occurrences_rrule_news self st et p db :
  by_rules p = [] -> 1 <= interval_or_1 (interval p) ->
  match add_occurrences Rrule.rrule self st et p db with
  | (inl _, db') => db' = db
  | (inr _, db') =>
      exists news,
        db' = with_new_occurrences db news
        /\ (forall o, In o news -> event o = self)
        /\ StronglySorted Z.lt (map start_time news)
        /\ (truthy_count (count p) || truthy_until (until p) = true ->
            Forall (fun o => microsecond (start_time o) = 0) news)
  end.
Proof.
  intros Hby Hi. unfold add_occurrences.
  destruct (truthy_count (count p) || truthy_until (until p)); cbn [negb].
  - unfold bind, lift.
    destruct (rrule_sorted_whole st p Hby Hi) as (Hs & Hw).
    destruct (Rrule.rrule st (setdefault_freq p)) as [evs r].
    cbn [yielded raised] in *.
    destruct (build_occurrences self (Datetime.sub et st) evs)
      as [e|occs] eqn:Eb; [reflexivity|].
    destruct r as [e|]; [reflexivity|].
    destruct (bulk_create_appends occs db) as (news & Hb & Hd).
    rewrite Hb. exists news. split; [reflexivity|].
    apply build_occurrences_inv in Eb. destruct Eb as (Hst & Hf).
    assert (Hstarts : map start_time news = evs).
    { rewrite <- Hst, <- Hd, map_map. reflexivity. }
    split; [|split].
    + intros o Ho. destruct (Hf _ (occ_data_fields _ _ _ Hd Ho)) as (H1 & _).
      exact H1.
    + now rewrite Hstarts.
    + intros _. apply Forall_forall. intros o Ho.
      rewrite Forall_forall in Hw. apply Hw. rewrite <- Hstarts.
      now apply in_map.
  - exists [single_occurrence db self st et]. split; [reflexivity|].
    split; [|split].
    + intros o [<-|[]]. reflexivity.
    + simpl. constructor; constructor.
    + discriminate.
Qed.

(** X20: for every frequency, for a rule without secondary constraints and
    with [interval >= 1], the occurrences one call of [add_occurrences]
    appends are stored in strictly ascending order of their starts: each is
    [<] every one stored after it, and no two start at the same time; a
    call that raises stores nothing. *)
Theorem add_occurrences_starts_ascending :
  forall (self : Z) (st et : datetime) (p : rrule_params) (db : DB),
    by_rules p = [] ->
    1 <= interval_or_1 (interval p) ->
    match add_occurrences Rrule.rrule self st et p db with
    | (inl _, db') => db' = db
    | (inr _, db') =>
        exists news,
          db' = with_new_occurrences db news
          /\ StronglySorted Z.lt (map start_time news)
          /\ StronglySorted (fun a b => occurrence_lt a b = true) news
    end.
Proof.
  intros self st et p db Hby Hi.
  pose proof (add_occurrences_rrule_news self st et p db Hby Hi) as H.
  destruct (add_occurrences Rrule.rrule self st et p db) as [[e|u] db'];
    [exact H|].
  destruct H as (news & -> & _ & Hs & _).
  exists news. split; [reflexivity|]. split; [exact Hs|].
  clear -Hs. induction news as [|o news IH]; [constructor|].
  simpl in Hs. apply StronglySorted_inv in Hs. destruct Hs as (Hs & Hall).
  constructor; [now apply IH|].
  rewrite Forall_forall in *. intros x Hx.
  unfold occurrence_lt. apply Z.ltb_lt. apply Hall. now apply in_map.
Qed.

(** A monthly rule from the 31st of January, five times: the ends of
    January, March, May, July and August, in this order. *)
Lemma add_occurrences_starts_ascending_witness :
  exists news,
    add_occurrences Rrule.rrule 1 (jan_2024 31 18 0) (jan_2024 31 19 30)
      (mkParams (Some MONTHLY) None (Some 5) None) prac_db
    = (inr tt, with_new_occurrences prac_db news)
    /\ List.length news = 5%nat
    /\ StronglySorted Z.lt (map start_time news)
    /\ StronglySorted (fun a b => occurrence_lt a b = true) news.
Proof.
  pose proof (add_occurrences_starts_ascending 1 (jan_2024 31 18 0)
                (jan_2024 31 19 30)
                (mkParams (Some MONTHLY) None (Some 5) None) prac_db
                eq_refl ltac:(vm_compute; discriminate)) as H.
  destruct (add_occurrences Rrule.rrule 1 _ _ _ prac_db) as [[e|[]] db']
    eqn:E; [vm_compute in E; discriminate|].
  destruct H as (news & -> & Hs & Hlt).
  exists news. split; [reflexivity|]. split; [|split; assumption].
  vm_compute in E. injection E as E.
  apply (f_equal (@List.length Occurrence)) in E. simpl in E. lia.
Defined.

Lemma StronglySorted_filter {A} (R : A -> A -> Prop) (p : A -> bool) l :
  StronglySorted R l -> StronglySorted R (filter p l).
Proof.
  induction 1 as [|x l Hs IH Hall]; simpl; [constructor|].
  destruct (p x); [|assumption].
  constructor; [assumption|].
  rewrite Forall_forall in *. intros y Hy. apply filter_In in Hy.
  apply Hall. tauto.
Qed.

Lemma order_by_sorted_id qs :
  StronglySorted occ_le qs -> order_by_start_time_end_time qs = qs.
Proof.
  induction 1 as [|x l Hs IH Hall]; [reflexivity|].
  unfold order_by_start_time_end_time in *. simpl. rewrite IH.
  destruct l as [|y l]; [reflexivity|]. simpl.
  apply Forall_inv in Hall. apply occ_leb_le in Hall. now rewrite Hall.
Qed.

Lemma starts_sorted_occ_le l :
  StronglySorted Z.lt (map start_time l) -> StronglySorted occ_le l.
Proof.
  induction l as [|o l IH]; intros H; [constructor|].
  simpl in H. apply StronglySorted_inv in H. destruct H as (Hs & Hall).
  constructor; [now apply IH|].
  rewrite Forall_forall in *. intros x Hx. left. apply Hall. now apply in_map.
Qed.

(** X21: for an event that had no occurrence before, after one call of
    [add_occurrences] (returned or raised) with a rule without secondary
    constraints and with [interval >= 1], the occurrences of the event
    come in the same order with and without the ordering of
    [OccurrenceBase.Meta], and [next_occurrence] returns the same under
    both: the earliest upcoming occurrence. *)
Theorem next_occurrence_after_single_call :
  forall (self : Z) (st et : datetime) (p : rrule_params) (db : DB),
    by_rules p = [] ->
    1 <= interval_or_1 (interval p) ->
    occurrence_set db self = [] ->
    let db' := snd (add_occurrences Rrule.rrule self st et p db) in
    (forall ord,
        fetch ord (occurrence_set db' self)
        = fetch OccurrenceBase_Meta_ordering (occurrence_set db' self))
    /\ (forall ord now,
          next_occurrence ord db' now self
          = next_occurrence OccurrenceBase_Meta_ordering db' now self).
Proof.
  intros self st et p db Hby Hi Hempty db'.
  assert (Hs : StronglySorted occ_le (occurrence_set db' self)).
  { unfold db'.
    pose proof (add_occurrences_rrule_news self st et p db Hby Hi) as H.
    destruct (add_occurrences Rrule.rrule self st et p db) as [[e|u] db''].
    - simpl. subst db''. rewrite Hempty. constructor.
    - destruct H as (news & -> & Hn & Hsort & _). simpl.
      unfold occurrence_set, with_new_occurrences. simpl.
      rewrite filter_app. unfold occurrence_set in Hempty. rewrite Hempty.
      simpl. apply StronglySorted_filter. now apply starts_sorted_occ_le. }
  split.
  - intros [|]; [|reflexivity].
    unfold OccurrenceBase_Meta_ordering. simpl.
    symmetry. now apply order_by_sorted_id.
  - intros [|] now; [|reflexivity].
    unfold next_occurrence, OccurrenceBase_Meta_ordering. simpl.
    rewrite order_by_sorted_id; [reflexivity|].
    unfold upcoming_occurrences. now apply StronglySorted_filter.
Qed.

(** The weekly practice, asked on January 2nd: the occurrence of January
    8th, under either ordering. *)
Lemma next_occurrence_after_single_call_witness :
  let db' := snd (add_occurrences Rrule.rrule 1 (jan_2024 1 18 0)
                    (jan_2024 1 19 30)
                    (mkParams (Some WEEKLY) None (Some 3) None) prac_db) in
  next_occurrence Occurrence_Meta_ordering db' (jan_2024 2 0 0) 1
  = Some (mkOccurrence 2 1 (jan_2024 8 18 0) (jan_2024 8 19 30))
  /\ (forall ord,
        fetch ord (occurrence_set db' 1)
        = fetch OccurrenceBase_Meta_ordering (occurrence_set db' 1))
  /\ (forall ord now,
        next_occurrence ord db' now 1
        = next_occurrence OccurrenceBase_Meta_ordering db' now 1).
Proof.
  cbv zeta. split; [vm_compute; reflexivity|].
  apply (next_occurrence_after_single_call 1 (jan_2024 1 18 0)
           (jan_2024 1 19 30) (mkParams (Some WEEKLY) None (Some 3) None)
           prac_db).
  - reflexivity.
  - vm_compute. discriminate.
  - reflexivity.
Defined.

Lemma day_filter_start_day o :
  microsecond (start_time o) = 0 ->
  day_filter (midnight (start_time o))
    (replace_hms_235959 (midnight (start_time o))) o = true.
Proof.
  intros Hus. apply day_filter_overlaps. left.
  destruct (day_window (start_time o)) as (-> & ->).
  revert Hus. generalize (start_time o). intros s.
  unfold microsecond, toordinal,
    US_PER_DAY, US_PER_HOUR, US_PER_MINUTE, US_PER_SECOND.
  intros Hus. Z.to_euclidean_division_equations. lia.
Qed.

(** X22: with a [count] or an [until], for a rule without secondary
    constraints and with [interval >= 1], every occurrence a call of
    [add_occurrences] appends is among the rows [daily_occurrences] returns
    for the day it starts, for every frequency: the rule yields whole
    seconds only, so none falls after 23:59:59.000000 of its day. *)
Theorem add_occurrences_bounded_seen_on_start_day :
  forall (ord : ordering) (self : Z) (st et : datetime) (p : rrule_params)
         (db : DB) (now : datetime),
    by_rules p = [] ->
    1 <= interval_or_1 (interval p) ->
    truthy_count (count p) || truthy_until (until p) = true ->
    match add_occurrences Rrule.rrule self st et p db with
    | (inl _, db') => db' = db
    | (inr _, db') =>
        exists news,
          db' = with_new_occurrences db news
          /\ forall o, In o news ->
               In o (fetch ord (daily_occurrences db' now
                                  (Some (start_time o)) (Some self)))
    end.
Proof.
  intros ord self st et p db now Hby Hi Ht.
  pose proof (add_occurrences_rrule_news self st et p db Hby Hi) as H.
  destruct (add_occurrences Rrule.rrule self st et p db) as [[e|u] db'];
    [exact H|].
  destruct H as (news & -> & Hn & _ & Hw). specialize (Hw Ht).
  exists news. split; [reflexivity|]. intros o Ho.
  apply daily_occurrences_In. split; [|split].
  - simpl. apply in_or_app. now right.
  - apply day_filter_start_day. rewrite Forall_forall in Hw. now apply Hw.
  - now apply Hn.
Qed.

(** A weekly rule from 23:59:59.5: the three occurrences start at 23:59:59
    and are found on their days. *)
Lemma add_occurrences_bounded_seen_on_start_day_witness :
  exists news,
    add_occurrences Rrule.rrule 1 (datetime_of 2024 1 1 23 59 59 500000)
      (datetime_of 2024 1 1 23 59 59 900000)
      (mkParams (Some WEEKLY) None (Some 3) None) prac_db
    = (inr tt, with_new_occurrences prac_db news)
    /\ List.length news = 3%nat
    /\ forall o, In o news ->
         In o (fetch no_ordering
                 (daily_occurrences (with_new_occurrences prac_db news)
                    (jan_2024 1 12 0) (Some (start_time o)) (Some 1))).
Proof.
  pose proof (add_occurrences_bounded_seen_on_start_day no_ordering 1
                (datetime_of 2024 1 1 23 59 59 500000)
                (datetime_of 2024 1 1 23 59 59 900000)
                (mkParams (Some WEEKLY) None (Some 3) None) prac_db
                (jan_2024 1 12 0) eq_refl ltac:(vm_compute; discriminate)
                eq_refl) as H.
  destruct (add_occurrences Rrule.rrule 1 _ _ _ prac_db) as [[e|[]] db']
    eqn:E; [vm_compute in E; discriminate|].
  destruct H as (news & -> & Hn).
  exists news. split; [reflexivity|]. split; [|exact Hn].
  vm_compute in E. injection E as E.
  apply (f_equal (@List.length Occurrence)) in E. simpl in E. lia.
Defined.

Lemma StronglySorted_impl {A} (R S : A -> A -> Prop) (l : list A) :
  (forall a b, R a b -> S a b) -> StronglySorted R l -> StronglySorted S l.
Proof.
  intros H. induction 1 as [|x l Hs IH Hall]; constructor; [assumption|].
  eapply Forall_impl; [|exact Hall]. intros y. apply H.
Qed.

(** X23: [__lt__] never contradicts the ordering of [OccurrenceBase.Meta]:
    an occurrence that is [<] another comes before it in the
    (start_time, end_time) order and not after it, and in the rows fetched
    under that ordering no row is [<] a row before it. *)
Theorem occurrence_lt_agrees_with_ordering :
  (forall a b : Occurrence,
      occurrence_lt a b = true -> occ_leb a b = true /\ occ_leb b a = false)
  /\ (forall qs : queryset,
        StronglySorted (fun a b => occurrence_lt b a = false)
          (fetch OccurrenceBase_Meta_ordering qs)).
Proof.
  split.
  - intros a b H. unfold occurrence_lt in H. apply Z.ltb_lt in H.
    unfold occ_leb. split.
    + apply orb_true_iff. left. now apply Z.ltb_lt.
    + apply orb_false_iff. split; [apply Z.ltb_ge; lia|].
      apply andb_false_iff. left. apply Z.eqb_neq. lia.
  - intros qs. eapply StronglySorted_impl; [|apply fetch_sorted].
    intros a b Hle. unfold occurrence_lt. apply Z.ltb_ge.
    unfold occ_le in Hle. lia.
Qed.
